(** * acisaldinamik: a serial-controlled five-axis stepper test console

    A shallow embedding of the Arduino sketch [acisaldinamik.ino] and the
    properties of its command interpreter, step-timing functions and motion
    profile.

    Modelling conventions.
    - Unsigned and signed machine integers are [Z] with the wrap-around
      written out ([wrap_unsigned], [wrap_signed]).
    - [float] is IEEE 754 binary32, computed with the reference operations of
      [SpecFloat] at precision 24 (round to nearest, ties to even).
    - The sketch's global variables, the output pins, the asynchronous abort
      requests still to come and the trace of actions performed so far form
      one [world] record that every function threads through.
    - The width of the C type [int] is a parameter ([int_bits]): 16 on the AVR
      boards the pin table is written for (Uno, Mega), 32 on ARM boards. *)

From Stdlib Require Import ZArith Bool Lia Ascii String.
From Stdlib Require Import Floats.SpecFloat.
From stdpp Require Import base list gmap.

Open Scope Z_scope.

(** ** Machine integers *)

Definition wrap_unsigned (bits z : Z) : Z := z mod 2 ^ bits.

Definition wrap_signed (bits z : Z) : Z :=
  let u := z mod 2 ^ bits in
  if u <? 2 ^ (bits - 1) then u else u - 2 ^ bits.

Definition u8 : Z -> Z := wrap_unsigned 8.
Definition u16 : Z -> Z := wrap_unsigned 16.
Definition u32 : Z -> Z := wrap_unsigned 32.
(** [long] is 32 bits wide on every Arduino core. *)
Definition long32 : Z -> Z := wrap_signed 32.

(** ** Single-precision floats *)

Module F32.

Definition prec : Z := 24.
Definition emax : Z := 128.

Definition float : Type := spec_float.

Definition mul : float -> float -> float := SFmul prec emax.
Definition div : float -> float -> float := SFdiv prec emax.
Definition add : float -> float -> float := SFadd prec emax.
Definition abs : float -> float := SFabs.
Definition opp : float -> float := SFopp.

(** Conversion of an integer to float (rounds when it has more than 24
    significant bits). *)
Definition of_Z (n : Z) : float := binary_normalize prec emax n 0 false.

(** The literals of the sketch. *)
Definition zero : float := S754_zero false.
Definition half : float := S754_finite false 8388608 (-24).
Definition one : float := S754_finite false 8388608 (-23).
Definition one_and_half : float := S754_finite false 12582912 (-23).
Definition two : float := S754_finite false 8388608 (-22).
Definition f360 : float := S754_finite false 11796480 (-15).
Definition f1000 : float := S754_finite false 16384000 (-14).
Definition f1e6 : float := S754_finite false 16000000 (-4).

(** The integer [m * 2^(e - e0)] a float stands for at the scale [2^e0]
    (exact when [e0] is at most its exponent); zeros stand for 0. *)
Definition scaled (e0 : Z) (x : float) : Z :=
  match x with
  | S754_finite s m e => cond_Zopp s (Zpos m * 2 ^ (e - e0))
  | _ => 0
  end.

Definition exponent (x : float) : Z :=
  match x with
  | S754_finite _ _ e => e
  | _ => 0
  end.

(** IEEE comparison: the order of the represented values; a NaN is
    unordered with everything. *)
Definition compare (x y : float) : option comparison :=
  match x, y with
  | S754_nan, _ | _, S754_nan => None
  | S754_infinity sx, S754_infinity sy =>
      Some (match sx, sy with
            | true, false => Lt
            | false, true => Gt
            | _, _ => Eq
            end)
  | S754_infinity sx, _ => Some (if sx then Lt else Gt)
  | _, S754_infinity sy => Some (if sy then Gt else Lt)
  | _, _ =>
      let e0 := Z.min (exponent x) (exponent y) in
      Some (Z.compare (scaled e0 x) (scaled e0 y))
  end.

Definition ltb (x y : float) : bool :=
  match compare x y with Some Lt => true | _ => false end.
Definition leb (x y : float) : bool :=
  match compare x y with Some (Lt | Eq) => true | _ => false end.
Definition gtb (x y : float) : bool := ltb y x.
Definition geb (x y : float) : bool := leb y x.

Definition is_finite (x : float) : bool :=
  match x with
  | S754_finite _ _ _ | S754_zero _ => true
  | _ => false
  end.

(** The integer part of the value (rounding toward zero), as a C
    conversion from float to an integer type computes it before the result
    is fitted to the destination type.  C leaves the conversion of an
    infinity or a NaN undefined; the model returns 0 there. *)
Definition trunc (x : float) : Z :=
  match x with
  | S754_finite s m e =>
      cond_Zopp s (if 0 <=? e then Zpos m * 2 ^ e else Zpos m / 2 ^ (- e))
  | _ => 0
  end.

(** The nearest integer, halfway cases away from zero ([lroundf]). *)
Definition round_away (x : float) : Z :=
  match x with
  | S754_finite s m e =>
      cond_Zopp s
        (if 0 <=? e then Zpos m * 2 ^ e
         else (2 * Zpos m + 2 ^ (- e)) / 2 ^ (- e + 1))
  | _ => 0
  end.

(** [(uint32_t)x]; a value outside the range of the type (undefined in C)
    is reduced modulo [2^32]. *)
Definition to_u32 (x : float) : Z := u32 (trunc x).

(** [lroundf(x)] as a 32-bit [long]. *)
Definition lroundf (x : float) : Z := long32 (round_away x).

(** Arduino's [max(a,b)] macro, [((a)>(b)?(a):(b))]. *)
Definition max (a b : float) : float := if gtb a b then a else b.

End F32.

Abbreviation float := F32.float.

(** ** Characters and strings (the C library and Arduino's [String]) *)

Definition code (c : ascii) : Z := Z.of_N (N_of_ascii c).

(** [isspace]: space, and the controls from tab to carriage return. *)
Definition isspace (c : ascii) : bool :=
  (code c =? 32) || ((9 <=? code c) && (code c <=? 13)).

Definition isdigit (c : ascii) : bool := (48 <=? code c) && (code c <=? 57).

Definition toupper (c : ascii) : ascii :=
  if (97 <=? code c) && (code c <=? 122)
  then ascii_of_N (Z.to_N (code c - 32)) else c.

Definition digit_value (c : ascii) : Z := code c - 48.

Fixpoint toUpperCase (s : string) : string :=
  match s with
  | EmptyString => EmptyString
  | String c r => String (toupper c) (toUpperCase r)
  end.

Fixpoint skip_spaces (s : string) : string :=
  match s with
  | String c r => if isspace c then skip_spaces r else s
  | EmptyString => EmptyString
  end.

(** Drops the white space at the end: a character stays when it is not a
    space or something stays after it. *)
Fixpoint drop_trailing_spaces (s : string) : string :=
  match s with
  | EmptyString => EmptyString
  | String c r =>
      match drop_trailing_spaces r with
      | EmptyString => if isspace c then EmptyString else String c EmptyString
      | r' => String c r'
      end
  end.

(** [String::trim()]. *)
Definition trim (s : string) : string := drop_trailing_spaces (skip_spaces s).

(** [String::toCharArray(buf, bufsize)]: at most [bufsize - 1] characters
    are copied, a terminator follows. *)
Definition toCharArray (bufsize : nat) (s : string) : string :=
  substring 0 (bufsize - 1)%nat s.

(** The delimiter set of every [strtok] call of the sketch: space, comma,
    tab. *)
Definition is_delim (c : ascii) : bool :=
  (code c =? 32) || (code c =? 44) || (code c =? 9).

Fixpoint skip_delims (s : string) : string :=
  match s with
  | String c r => if is_delim c then skip_delims r else s
  | EmptyString => EmptyString
  end.

(** The token at the head of [s] (up to the first delimiter) and what
    follows that delimiter. *)
Fixpoint take_token (s : string) : string * string :=
  match s with
  | EmptyString => (EmptyString, EmptyString)
  | String c r =>
      if is_delim c then (EmptyString, r)
      else let (t, rest) := take_token r in (String c t, rest)
  end.

(** One [strtok] call on the text that is left: the next token, if any, and
    the text left for the next call ([strtok(NULL, ...)]). *)
Definition strtok (s : string) : option string * string :=
  match skip_delims s with
  | EmptyString => (None, EmptyString)
  | s' => let (t, rest) := take_token s' in (Some t, rest)
  end.

(** [strcasecmp(a, b) == 0]. *)
Definition strcaseeq (a b : string) : bool :=
  String.eqb (toUpperCase a) (toUpperCase b).

(** The decimal digits at the head of [s], accumulated onto [acc], the
    number of digits read, and the rest. *)
Fixpoint read_digits (s : string) (acc : Z) (n : Z) : Z * Z * string :=
  match s with
  | String c r =>
      if isdigit c then read_digits r (10 * acc + digit_value c) (n + 1)
      else (acc, n, s)
  | EmptyString => (acc, n, s)
  end.

(** An optional sign: [true] for a minus. *)
Definition read_sign (s : string) : bool * string :=
  match s with
  | String "-" r => (true, r)
  | String "+" r => (false, r)
  | _ => (false, s)
  end.

(** The integer a C numeric parser reads at the head of [s]: white space,
    an optional sign, digits; 0 when there is no digit. *)
Definition parse_integer (s : string) : Z :=
  let (neg, r) := read_sign (skip_spaces s) in
  let '(v, _, _) := read_digits r 0 0 in
  if neg then - v else v.

(** [atol]: the value as a 32-bit [long]. *)
Definition atol (s : string) : Z := long32 (parse_integer s).

(** Correctly rounded quotient of two positive integers. *)
Definition float_of_ratio (neg : bool) (num den : positive) : float :=
  F32.div (S754_finite neg num 0) (S754_finite false den 0).

Definition starts_with_ci (p s : string) : bool :=
  String.eqb (toUpperCase (substring 0 (String.length p) s)) p.

(** [atof] ([strtod]): white space, an optional sign, then INF, INFINITY or
    NAN in any case, or digits with an optional fraction and an optional
    decimal exponent; 0 when nothing of this is found. *)
Definition atof (s : string) : float :=
  let (neg, r) := read_sign (skip_spaces s) in
  if starts_with_ci "INF" r then S754_infinity neg
  else if starts_with_ci "NAN" r then S754_nan
  else
    let '(ip, ni, r1) := read_digits r 0 0 in
    let '(m, nf, r2) :=
      match r1 with
      | String "." r1' => read_digits r1' ip 0
      | _ => (ip, 0, r1)
      end in
    if ni + nf =? 0 then F32.zero
    else
      let ex :=
        match r2 with
        | String c r3 =>
            if (code c =? 101) || (code c =? 69) then
              let (eneg, r4) := read_sign r3 in
              let '(ev, ne, _) := read_digits r4 0 0 in
              if ne =? 0 then 0 else if eneg then - ev else ev
            else 0
        | EmptyString => 0
        end in
      let k := ex - nf in
      match m with
      | Zpos p =>
          if 0 <=? k then float_of_ratio neg (p * Z.to_pos (10 ^ k)) 1
          else float_of_ratio neg p (Z.to_pos (10 ^ (- k)))
      | _ => S754_zero neg
      end.

(** ** The board: pins, serial output, the trace of actions *)

(** What a [Serial.print] call is given. *)
Inductive sitem : Type :=
  | SStr (s : string)
  | SInt (n : Z)
  | SFloat (x : float) (digits : Z).

Inductive event : Type :=
  | EvPinModeOutput (pin : Z)
  | EvSerialBegin (baud : Z)
  | EvDigitalWrite (pin : Z) (level : bool)
  | EvDelayMicroseconds (us : Z)
  | EvDelay (ms : Z)
  | EvPrint (x : sitem)
  | EvPrintln (x : sitem)
  | EvPoll (seen : bool).

Definition HIGH : bool := true.
Definition LOW : bool := false.

Record MotorPins : Type := { pul : Z; dir : Z; ena : Z }.

Definition MOT : list MotorPins :=
  [ {| pul := 2; dir := 3; ena := 4 |};
    {| pul := 5; dir := 6; ena := 7 |};
    {| pul := 8; dir := 9; ena := 10 |};
    {| pul := 11; dir := 12; ena := 13 |};
    {| pul := 46; dir := 47; ena := 48 |} ].

Definition DEFAULT_STEPS_PER_REV : Z := 1600.
Definition DEFAULT_BAUD : Z := 115200.

(** The global variables of the sketch, the levels of the output pins, the
    asynchronous abort requests to come and the actions performed so far.
    [abortRequested] is [volatile]: something outside the straight-line code
    may set it.  [pending] says, for each coming read of the flag, whether
    such a request has arrived by then. *)
Record world : Type := {
  stepsPerRev : list Z;
  aktifMotor : Z;
  setAngleDeg : float;
  setSpeedDPS : float;
  pauseMs : Z;
  repeats : Z;
  rampMs : Z;
  abortRequested : bool;
  movingMotor : Z;
  inbuf : string;
  pins : gmap Z bool;
  pending : list bool;
  log : list event
}.

Definition set_stepsPerRev (v : list Z) (w : world) : world :=
  {| stepsPerRev := v; aktifMotor := aktifMotor w; setAngleDeg := setAngleDeg w;
     setSpeedDPS := setSpeedDPS w; pauseMs := pauseMs w; repeats := repeats w;
     rampMs := rampMs w; abortRequested := abortRequested w;
     movingMotor := movingMotor w; inbuf := inbuf w; pins := pins w;
     pending := pending w; log := log w |}.

Definition set_aktifMotor (v : Z) (w : world) : world :=
  {| stepsPerRev := stepsPerRev w; aktifMotor := v; setAngleDeg := setAngleDeg w;
     setSpeedDPS := setSpeedDPS w; pauseMs := pauseMs w; repeats := repeats w;
     rampMs := rampMs w; abortRequested := abortRequested w;
     movingMotor := movingMotor w; inbuf := inbuf w; pins := pins w;
     pending := pending w; log := log w |}.

Definition set_setAngleDeg (v : float) (w : world) : world :=
  {| stepsPerRev := stepsPerRev w; aktifMotor := aktifMotor w; setAngleDeg := v;
     setSpeedDPS := setSpeedDPS w; pauseMs := pauseMs w; repeats := repeats w;
     rampMs := rampMs w; abortRequested := abortRequested w;
     movingMotor := movingMotor w; inbuf := inbuf w; pins := pins w;
     pending := pending w; log := log w |}.

Definition set_setSpeedDPS (v : float) (w : world) : world :=
  {| stepsPerRev := stepsPerRev w; aktifMotor := aktifMotor w;
     setAngleDeg := setAngleDeg w; setSpeedDPS := v; pauseMs := pauseMs w;
     repeats := repeats w; rampMs := rampMs w;
     abortRequested := abortRequested w; movingMotor := movingMotor w;
     inbuf := inbuf w; pins := pins w; pending := pending w; log := log w |}.

Definition set_pauseMs (v : Z) (w : world) : world :=
  {| stepsPerRev := stepsPerRev w; aktifMotor := aktifMotor w;
     setAngleDeg := setAngleDeg w; setSpeedDPS := setSpeedDPS w; pauseMs := v;
     repeats := repeats w; rampMs := rampMs w;
     abortRequested := abortRequested w; movingMotor := movingMotor w;
     inbuf := inbuf w; pins := pins w; pending := pending w; log := log w |}.

Definition set_repeats (v : Z) (w : world) : world :=
  {| stepsPerRev := stepsPerRev w; aktifMotor := aktifMotor w;
     setAngleDeg := setAngleDeg w; setSpeedDPS := setSpeedDPS w;
     pauseMs := pauseMs w; repeats := v; rampMs := rampMs w;
     abortRequested := abortRequested w; movingMotor := movingMotor w;
     inbuf := inbuf w; pins := pins w; pending := pending w; log := log w |}.

Definition set_rampMs (v : Z) (w : world) : world :=
  {| stepsPerRev := stepsPerRev w; aktifMotor := aktifMotor w;
     setAngleDeg := setAngleDeg w; setSpeedDPS := setSpeedDPS w;
     pauseMs := pauseMs w; repeats := repeats w; rampMs := v;
     abortRequested := abortRequested w; movingMotor := movingMotor w;
     inbuf := inbuf w; pins := pins w; pending := pending w; log := log w |}.

Definition set_abortRequested (v : bool) (w : world) : world :=
  {| stepsPerRev := stepsPerRev w; aktifMotor := aktifMotor w;
     setAngleDeg := setAngleDeg w; setSpeedDPS := setSpeedDPS w;
     pauseMs := pauseMs w; repeats := repeats w; rampMs := rampMs w;
     abortRequested := v; movingMotor := movingMotor w; inbuf := inbuf w;
     pins := pins w; pending := pending w; log := log w |}.

Definition set_movingMotor (v : Z) (w : world) : world :=
  {| stepsPerRev := stepsPerRev w; aktifMotor := aktifMotor w;
     setAngleDeg := setAngleDeg w; setSpeedDPS := setSpeedDPS w;
     pauseMs := pauseMs w; repeats := repeats w; rampMs := rampMs w;
     abortRequested := abortRequested w; movingMotor := v; inbuf := inbuf w;
     pins := pins w; pending := pending w; log := log w |}.

Definition set_inbuf (v : string) (w : world) : world :=
  {| stepsPerRev := stepsPerRev w; aktifMotor := aktifMotor w;
     setAngleDeg := setAngleDeg w; setSpeedDPS := setSpeedDPS w;
     pauseMs := pauseMs w; repeats := repeats w; rampMs := rampMs w;
     abortRequested := abortRequested w; movingMotor := movingMotor w;
     inbuf := v; pins := pins w; pending := pending w; log := log w |}.

Definition set_pins (v : gmap Z bool) (w : world) : world :=
  {| stepsPerRev := stepsPerRev w; aktifMotor := aktifMotor w;
     setAngleDeg := setAngleDeg w; setSpeedDPS := setSpeedDPS w;
     pauseMs := pauseMs w; repeats := repeats w; rampMs := rampMs w;
     abortRequested := abortRequested w; movingMotor := movingMotor w;
     inbuf := inbuf w; pins := v; pending := pending w; log := log w |}.

Definition set_pending (v : list bool) (w : world) : world :=
  {| stepsPerRev := stepsPerRev w; aktifMotor := aktifMotor w;
     setAngleDeg := setAngleDeg w; setSpeedDPS := setSpeedDPS w;
     pauseMs := pauseMs w; repeats := repeats w; rampMs := rampMs w;
     abortRequested := abortRequested w; movingMotor := movingMotor w;
     inbuf := inbuf w; pins := pins w; pending := v; log := log w |}.

Definition set_log (v : list event) (w : world) : world :=
  {| stepsPerRev := stepsPerRev w; aktifMotor := aktifMotor w;
     setAngleDeg := setAngleDeg w; setSpeedDPS := setSpeedDPS w;
     pauseMs := pauseMs w; repeats := repeats w; rampMs := rampMs w;
     abortRequested := abortRequested w; movingMotor := movingMotor w;
     inbuf := inbuf w; pins := pins w; pending := pending w; log := v |}.

(** Element [i] of a C array; [None] outside it (undefined in C; the sketch
    only indexes with motor numbers it has checked to be in 1..5). *)
Definition array_get {A : Type} (l : list A) (i : Z) : option A :=
  if i <? 0 then None else l !! Z.to_nat i.

Definition array_set {A : Type} (l : list A) (i : Z) (v : A) : list A :=
  if i <? 0 then l else <[Z.to_nat i := v]> l.

Definition MOT_at (m : Z) : MotorPins :=
  default {| pul := 0; dir := 0; ena := 0 |} (array_get MOT (m - 1)).

Definition stepsPerRev_at (w : world) (m : Z) : Z :=
  default 0 (array_get (stepsPerRev w) (m - 1)).

Definition emit (e : event) (w : world) : world := set_log (log w ++ [e]) w.

Definition pinModeOutput (pin : Z) (w : world) : world :=
  emit (EvPinModeOutput pin) w.

Definition digitalWrite (pin : Z) (level : bool) (w : world) : world :=
  emit (EvDigitalWrite pin level) (set_pins (<[pin := level]> (pins w)) w).

Definition digitalRead (pin : Z) (w : world) : bool :=
  default LOW (pins w !! pin).

Definition delayMicroseconds (us : Z) (w : world) : world :=
  emit (EvDelayMicroseconds us) w.

Definition delay (ms : Z) (w : world) : world := emit (EvDelay ms) w.

Definition Serial_print (x : sitem) (w : world) : world := emit (EvPrint x) w.
Definition Serial_println (x : sitem) (w : world) : world :=
  emit (EvPrintln x) w.

(** A read of the volatile flag: a request that has arrived by now sets it;
    the read sees the flag and goes on the trace. *)
Definition read_abortRequested (w : world) : bool * world :=
  let arrived := match pending w with b :: _ => b | [] => false end in
  let seen := abortRequested w || arrived in
  (seen, emit (EvPoll seen)
           (set_pending (tail (pending w)) (set_abortRequested seen w))).

(** ** The sketch *)

Section Sketch.

(** Width of the C type [int]. *)
Variable int_bits : Z.

Definition to_int : Z -> Z := wrap_signed int_bits.

(** [atoi].  C leaves a value outside [int] undefined; the model reduces
    it modulo [2^int_bits], which is what avr-libc's digit loop computes and
    what converting [strtol]'s result to [int] gives. *)
Definition atoi (s : string) : Z := to_int (parse_integer s).

(** *** Helpers *)

Definition enaOn (m : Z) (w : world) : world :=
  digitalWrite (ena (MOT_at m)) LOW w.
Definition enaOff (m : Z) (w : world) : world :=
  digitalWrite (ena (MOT_at m)) HIGH w.

Definition pulseOnce (pulPin delayUs : Z) (w : world) : world :=
  let half := delayUs / 2 in
  let w := digitalWrite pulPin HIGH w in
  let w := delayMicroseconds half w in
  let w := digitalWrite pulPin LOW w in
  delayMicroseconds (delayUs - half) w.

Definition degToSteps (m : Z) (deg : float) (w : world) : Z :=
  let stepsPerDeg := F32.div (F32.of_Z (stepsPerRev_at w m)) F32.f360 in
  let raw := F32.mul (F32.abs deg) stepsPerDeg in
  let s := F32.lroundf raw in
  let s := if s <? 0 then 0 else s in
  u32 s.

Definition directionFor (deg : float) : bool := F32.geb deg F32.zero.

Definition dpsToDelayUs (dps : float) (m : Z) (w : world) : Z :=
  let dps := if F32.leb dps F32.zero then F32.one else dps in
  let stepsPerDeg := F32.div (F32.of_Z (stepsPerRev_at w m)) F32.f360 in
  let sps := F32.mul dps stepsPerDeg in
  let sps := if F32.ltb sps F32.one then F32.one else sps in
  let periodUs := F32.div F32.f1e6 sps in
  let periodUs := if F32.ltb periodUs F32.two then F32.two else periodUs in
  F32.to_u32 periodUs.

(** *** The motion profile *)

(** [for (uint32_t i = 0; i < n; i++) { if (abortRequested) break;
    pulseOnce(pulPin, curDelay(i)); }], entered with [n - i] rounds to go. *)
Fixpoint pulse_loop (rounds : nat) (i : Z) (curDelay : Z -> Z) (pulPin : Z)
    (w : world) : world :=
  match rounds with
  | O => w
  | S rounds' =>
      let (seen, w) := read_abortRequested w in
      if seen then w
      else pulse_loop rounds' (i + 1) curDelay pulPin
             (pulseOnce pulPin (curDelay i) w)
  end.

(** The ramp length of the trapezoidal branch. *)
Definition rampStepsFor (totalSteps tgtDelayUs rampMs' : Z) : Z :=
  let spsTarget := F32.div F32.f1e6 (F32.of_Z tgtDelayUs) in
  let rampSteps :=
    F32.to_u32
      (F32.max F32.one
         (F32.mul (F32.mul spsTarget (F32.div (F32.of_Z rampMs') F32.f1000))
            F32.half)) in
  if u32 (rampSteps * 2) >? totalSteps then totalSteps / 2 else rampSteps.

(** The delay of the first step of the trapezoidal branch. *)
Definition startDelayFor (tgtDelayUs : Z) : Z :=
  let startDelayUs :=
    F32.to_u32 (F32.mul (F32.of_Z tgtDelayUs) F32.one_and_half) in
  if startDelayUs <? u32 (tgtDelayUs + 2) then u32 (tgtDelayUs + 2)
  else startDelayUs.

(** The interpolation parameter of step [i] of a ramp. *)
Definition ramp_t (rampSteps i : Z) : float :=
  if rampSteps <=? 1 then F32.one
  else F32.div (F32.of_Z i) (F32.of_Z (u32 (rampSteps - 1))).

(** [(uint32_t)(fromUs + t * ((int)toUs - (int)fromUs))]. *)
Definition interpolate (fromUs toUs : Z) (t : float) : Z :=
  F32.to_u32
    (F32.add (F32.of_Z fromUs)
       (F32.mul t (F32.of_Z (to_int (to_int toUs - to_int fromUs))))).

(** Lines 116-158: the pulses of one move. *)
Definition run_profile (pulPin totalSteps tgtDelayUs rampMs' : Z)
    (w : world) : world :=
  if (rampMs' =? 0) || (totalSteps <? 10) then
    pulse_loop (Z.to_nat totalSteps) 0 (fun _ => tgtDelayUs) pulPin w
  else
    let rampSteps := rampStepsFor totalSteps tgtDelayUs rampMs' in
    let startDelayUs := startDelayFor tgtDelayUs in
    let w :=
      pulse_loop (Z.to_nat rampSteps) 0
        (fun i => interpolate startDelayUs tgtDelayUs (ramp_t rampSteps i))
        pulPin w in
    let midSteps := u32 (totalSteps - rampSteps - rampSteps) in
    let w :=
      pulse_loop (Z.to_nat midSteps) 0 (fun _ => tgtDelayUs) pulPin w in
    pulse_loop (Z.to_nat rampSteps) 0
      (fun i => interpolate tgtDelayUs startDelayUs (ramp_t rampSteps i))
      pulPin w.

Definition moveWithProfile (m : Z) (deg dps : float) (rampMs' : Z)
    (w : world) : world :=
  let p := MOT_at m in
  let fwd := directionFor deg in
  let totalSteps := degToSteps m deg w in
  if totalSteps =? 0 then w
  else
    let w := digitalWrite (dir p) (if fwd then HIGH else LOW) w in
    let w := enaOn m w in
    let w := set_movingMotor m w in
    let w := set_abortRequested false w in
    let w := Serial_print (SStr "MOVING M") w in
    let w := Serial_print (SInt m) w in
    let w := Serial_println (SStr " START") w in
    let tgtDelayUs := dpsToDelayUs dps m w in
    let w := run_profile (pul p) totalSteps tgtDelayUs rampMs' w in
    let w := set_movingMotor 0 w in
    let w := Serial_print (SStr "MOVING M") w in
    let w := Serial_print (SInt m) w in
    Serial_println (SStr " END") w.

Definition doForward (m : Z) (w : world) : world :=
  moveWithProfile m (F32.abs (setAngleDeg w)) (setSpeedDPS w) (rampMs w) w.
Definition doBackward (m : Z) (w : world) : world :=
  moveWithProfile m (F32.opp (F32.abs (setAngleDeg w))) (setSpeedDPS w)
    (rampMs w) w.

(** *** Reading and interpreting commands *)

Definition help_lines : list string :=
  [ "Komutlar:";
    "  M <1-5>         : Motor sec";
    "  A <deg>         : Aci (derece, +/-)";
    "  V <dps>         : Hiz (derece/s)";
    "  S <steps_rev>   : Secili motor icin steps/rev ata (ornegin 1600, 3200)";
    "  RAMP <ms>       : Ivmelenme/yavaslama suresi (0 = kapali)";
    "  PAUSE <ms>      : Ileri-geri arasi bekleme";
    "  REP <n>         : Q icin tekrar sayisi";
    "  G               : Yalniz ileri hareket (setAngleDeg, setSpeedDPS)";
    "  Q               : Ileri-geri hareket (REP kadar tekrar)";
    "  SHOW            : Mevcut ayarlari yaz";
    "  MOVE m deg dps  : Tek satir ileri hareket";
    "  TEST m deg dps rep pause_ms : Ileri-geri tekrarla";
    "  ABORT           : Acil durdur (hareketi kes, ENA OFF)";
    "  ENA [m] ON|OFF  : ENA ac/kapat (m verilirse sadece o motor)";
    "  STOP [m]        : O anki hareketi kes (m verilirse yalniz o motor)";
    "  STATUS          : Tum motorlarin ENA/MOVING durumunu yaz" ]%string.

Definition printHelp (w : world) : world :=
  foldl (fun w s => Serial_println (SStr s) w) w help_lines.

Definition showState (w : world) : world :=
  let w := Serial_println (SStr "--------- AYARLAR ---------") w in
  let w := Serial_print (SStr "Motor: ") w in
  let w := Serial_println (SInt (aktifMotor w)) w in
  let w := Serial_print (SStr "Aci (deg): ") w in
  let w := Serial_println (SFloat (setAngleDeg w) 3) w in
  let w := Serial_print (SStr "Hiz (deg/s): ") w in
  let w := Serial_println (SFloat (setSpeedDPS w) 3) w in
  let w := Serial_print (SStr "Steps/Rev (secili): ") w in
  let w := Serial_println (SInt (stepsPerRev_at w (aktifMotor w))) w in
  let w := Serial_print (SStr "Rampa (ms): ") w in
  let w := Serial_println (SInt (rampMs w)) w in
  let w := Serial_print (SStr "Pause (ms): ") w in
  let w := Serial_println (SInt (pauseMs w)) w in
  let w := Serial_print (SStr "Repeat: ") w in
  let w := Serial_println (SInt (repeats w)) w in
  let stepsPerDeg :=
    F32.div (F32.of_Z (stepsPerRev_at w (aktifMotor w))) F32.f360 in
  let w := Serial_print (SStr "1 deg = ") w in
  let w := Serial_print (SFloat stepsPerDeg 3) w in
  let w := Serial_println (SStr " step") w in
  Serial_println (SStr "---------------------------") w.

(** [for (int i=1;i<=5;i++) enaOff(i);] *)
Definition enaOff_all (w : world) : world :=
  foldl (fun w i => enaOff i w) w [1; 2; 3; 4; 5].
Definition enaOn_all (w : world) : world :=
  foldl (fun w i => enaOn i w) w [1; 2; 3; 4; 5].

(** The body of the [Q] loop, [rounds] rounds to go from round [i]. *)
Fixpoint q_loop (rounds : nat) (i : Z) (w : world) : world :=
  match rounds with
  | O => w
  | S rounds' =>
      let w := doForward (aktifMotor w) w in
      let w := delay (pauseMs w) w in
      let w := doBackward (aktifMotor w) w in
      let w := if i + 1 <? repeats w then delay (pauseMs w) w else w in
      q_loop rounds' (i + 1) w
  end.

(** The body of the [TEST] loop, [rounds] rounds to go from round [i]. *)
Fixpoint test_loop (rounds : nat) (i : Z) (m : Z) (deg dps : float)
    (rep pms : Z) (w : world) : world :=
  match rounds with
  | O => w
  | S rounds' =>
      let (seen, w) := read_abortRequested w in
      if seen then w
      else
        let w := moveWithProfile m (F32.abs deg) dps (rampMs w) w in
        let (seen, w) := read_abortRequested w in
        if seen then w
        else
          let w := delay (u32 pms) w in
          let w :=
            moveWithProfile m (F32.opp (F32.abs deg)) dps (rampMs w) w in
          let w := if i + 1 <? rep then delay (u32 pms) w else w in
          test_loop rounds' (i + 1) m deg dps rep pms w
  end.

Definition status_line (i : Z) (w : world) : world :=
  let enaOnState := negb (digitalRead (ena (MOT_at i)) w) in
  let isMoving := movingMotor w =? i in
  let w := Serial_print (SStr "STATUS M") w in
  let w := Serial_print (SInt i) w in
  let w := Serial_print (SStr " ENA:") w in
  let w := Serial_print (SStr (if enaOnState then "ON" else "OFF")) w in
  let w := Serial_print (SStr " MOVING:") w in
  Serial_println (SInt (if isMoving then 1 else 0)) w.

Definition in_1_5 (m : Z) : bool := (1 <=? m) && (m <=? 5).

Definition streq (a b : string) : bool := String.eqb a b.

(** The part of [parseAndExec] after [strtok] has given the command word:
    [rest] is the text left for the following [strtok] calls. *)
Definition exec_command (cmd rest : string) (w : world) : world :=
  if streq cmd "M" then
    match strtok rest with
    | (Some p, _) =>
        let m := atoi p in
        if in_1_5 m then
          let w := set_aktifMotor m w in
          let w := Serial_print (SStr "Motor secildi: ") w in
          let w := Serial_println (SInt (aktifMotor w)) w in
          enaOn (aktifMotor w) w
        else w
    | (None, _) => w
    end
  else if streq cmd "ENA" then
    let (pm, rest1) := strtok rest in
    let (pstate, _) := strtok rest1 in
    let '(m, pstate) :=
      match pm with
      | Some (String c _ as t) => if isdigit c then (atoi t, pstate) else (0, pm)
      | _ => (0, pm)
      end in
    match pstate with
    | None => w
    | Some st =>
        let turnOn := strcaseeq st "ON" in
        let turnOff := strcaseeq st "OFF" in
        if negb (turnOn || turnOff) then w
        else if in_1_5 m then
          if turnOn then
            let w := enaOn m w in
            let w := Serial_print (SStr "ENA ON M") w in
            Serial_println (SInt m) w
          else
            let w := enaOff m w in
            let w := Serial_print (SStr "ENA OFF M") w in
            Serial_println (SInt m) w
        else
          let w := if turnOn then enaOn_all w else enaOff_all w in
          Serial_println
            (SStr (if turnOn then "ENA: ON (tum motorlar)"
                   else "ENA: OFF (tum motorlar)")) w
    end
  else if streq cmd "STOP" then
    match strtok rest with
    | (Some pm, _) =>
        let m := atoi pm in
        if in_1_5 m then
          let w :=
            if movingMotor w =? m
            then set_movingMotor 0 (set_abortRequested true w) else w in
          let w := enaOff m w in
          let w := Serial_print (SStr "STOP: M") w in
          Serial_println (SInt m) w
        else w
    | (None, _) =>
        let w := set_abortRequested true w in
        let w := enaOff_all w in
        let w := set_movingMotor 0 w in
        Serial_println (SStr "STOP: tum motorlar") w
    end
  else if streq cmd "STATUS" then
    foldl (fun w i => status_line i w) w [1; 2; 3; 4; 5]
  else if streq cmd "A" then
    match strtok rest with
    | (Some p, _) =>
        let w := set_setAngleDeg (atof p) w in
        let w := Serial_print (SStr "Aci(deg): ") w in
        Serial_println (SFloat (setAngleDeg w) 3) w
    | (None, _) => w
    end
  else if streq cmd "V" then
    match strtok rest with
    | (Some p, _) =>
        let w := set_setSpeedDPS (atof p) w in
        let w :=
          if F32.leb (setSpeedDPS w) F32.zero
          then set_setSpeedDPS F32.one w else w in
        let w := Serial_print (SStr "Hiz(deg/s): ") w in
        Serial_println (SFloat (setSpeedDPS w) 3) w
    | (None, _) => w
    end
  else if streq cmd "S" then
    match strtok rest with
    | (Some p, _) =>
        let spr := u32 (atol p) in
        if (50 <=? spr) && (spr <=? 200000) then
          let w :=
            set_stepsPerRev
              (array_set (stepsPerRev w) (aktifMotor w - 1) spr) w in
          let w := Serial_print (SStr "Steps/Rev (M") w in
          let w := Serial_print (SInt (aktifMotor w)) w in
          let w := Serial_print (SStr "): ") w in
          Serial_println (SInt spr) w
        else w
    | (None, _) => w
    end
  else if streq cmd "RAMP" then
    match strtok rest with
    | (Some p, _) =>
        let v := atoi p in
        let v := if v <? 0 then 0 else v in
        let v := if v >? 5000 then 5000 else v in
        let w := set_rampMs (u16 v) w in
        let w := Serial_print (SStr "Rampa (ms): ") w in
        Serial_println (SInt (rampMs w)) w
    | (None, _) => w
    end
  else if streq cmd "PAUSE" then
    match strtok rest with
    | (Some p, _) =>
        let v := atoi p in
        let v := if v <? 0 then 0 else v in
        let w := set_pauseMs (u16 v) w in
        let w := Serial_print (SStr "Pause (ms): ") w in
        Serial_println (SInt (pauseMs w)) w
    | (None, _) => w
    end
  else if streq cmd "REP" then
    match strtok rest with
    | (Some p, _) =>
        let v := atoi p in
        let v := if v <? 1 then 1 else v in
        let v := if v >? 200 then 200 else v in
        let w := set_repeats (u8 v) w in
        let w := Serial_print (SStr "Repeat: ") w in
        Serial_println (SInt (repeats w)) w
    | (None, _) => w
    end
  else if streq cmd "MOVE" then
    let (pm, rest1) := strtok rest in
    let (pd, rest2) := strtok rest1 in
    let (pv, _) := strtok rest2 in
    match pm, pd, pv with
    | Some pm, Some pd, Some pv =>
        let m := atoi pm in
        let deg := atof pd in
        let dps := atof pv in
        if in_1_5 m && F32.gtb dps F32.zero then
          let w := set_aktifMotor m w in
          let w := set_abortRequested false w in
          moveWithProfile m deg dps (rampMs w) w
        else w
    | _, _, _ => w
    end
  else if streq cmd "TEST" then
    let (pm, rest1) := strtok rest in
    let (pd, rest2) := strtok rest1 in
    let (pv, rest3) := strtok rest2 in
    let (pr, rest4) := strtok rest3 in
    let (pp, _) := strtok rest4 in
    match pm, pd, pv, pr, pp with
    | Some pm, Some pd, Some pv, Some pr, Some pp =>
        let m := atoi pm in
        let deg := atof pd in
        let dps := atof pv in
        let rep := atoi pr in
        let pms := atoi pp in
        if in_1_5 m && F32.gtb dps F32.zero && (1 <=? rep) then
          let w := set_aktifMotor m w in
          let w := set_abortRequested false w in
          test_loop (Z.to_nat rep) 0 m deg dps rep pms w
        else w
    | _, _, _, _, _ => w
    end
  else Serial_println (SStr "Bilinmeyen komut. 'HELP' yaz.") w.

(** [parseAndExec] once the line is trimmed and known not to be empty:
    [u] is the upper-cased line, [buf] the character buffer the tokens are
    cut from. *)
Definition exec_line (u buf : string) (w : world) : world :=
  if streq u "HELP" || streq u "?" then printHelp w
  else if streq u "SHOW" then showState w
  else if streq u "G" then doForward (aktifMotor w) w
  else if streq u "ABORT" then
    let w := set_abortRequested true w in
    let w := enaOff_all w in
    let w := set_movingMotor 0 w in
    Serial_println (SStr "ABORT: hareket durduruldu, ENA OFF") w
  else if streq u "Q" then q_loop (Z.to_nat (repeats w)) 0 w
  else
    match strtok buf with
    | (None, _) => w
    | (Some cmd, rest) => exec_command cmd rest w
    end.

Definition parseAndExec (line : string) (w : world) : world :=
  let line := trim line in
  if (String.length line =? 0)%nat then w
  else exec_line (toUpperCase line) (toCharArray 64 line) w.

(** *** Setup and loop *)

Definition power_on : world :=
  {| stepsPerRev :=
       [ DEFAULT_STEPS_PER_REV; DEFAULT_STEPS_PER_REV; DEFAULT_STEPS_PER_REV;
         DEFAULT_STEPS_PER_REV; DEFAULT_STEPS_PER_REV ];
     aktifMotor := 1;
     setAngleDeg := F32.of_Z 15;
     setSpeedDPS := F32.of_Z 90;
     pauseMs := 500;
     repeats := 1;
     rampMs := 0;
     abortRequested := false;
     movingMotor := 0;
     inbuf := EmptyString;
     pins := ∅;
     pending := [];
     log := [] |}.

Definition setup_pins (w : world) (p : MotorPins) : world :=
  let w := pinModeOutput (pul p) w in
  let w := pinModeOutput (dir p) w in
  let w := pinModeOutput (ena p) w in
  let w := digitalWrite (ena p) LOW w in
  let w := digitalWrite (dir p) LOW w in
  digitalWrite (pul p) LOW w.

Definition setup (w : world) : world :=
  let w := foldl setup_pins w MOT in
  let w := emit (EvSerialBegin DEFAULT_BAUD) w in
  let w := delay 200 w in
  let w := Serial_println (SStr "Stepper Test Konsolu hazir. 'HELP' yazin.") w in
  showState w.

(** One round of the [while] of [loop()], for the byte [c] just read. *)
Definition loop_byte (w : world) (c : ascii) : world :=
  if (code c =? 10) || (code c =? 13) then
    set_inbuf EmptyString (parseAndExec (inbuf w) w)
  else if (String.length (inbuf w) <? 120)%nat then
    set_inbuf (inbuf w ++ String c EmptyString)%string w
  else w.

(** [loop()] with the bytes [bytes] waiting on the serial port. *)
Definition loop (bytes : list ascii) (w : world) : world :=
  foldl loop_byte w bytes.

End Sketch.

(** The board after [setup()], its trace emptied, with no abort request to
    come. *)
Definition booted : world := set_log [] (setup power_on).

(** ** The specification's wording, for comparison with the sketch *)

(** Specification, section 6: the tokens are taken from the entire line (no
    truncation in the interpreter). *)
Definition parseAndExec_whole_line (int_bits : Z) (line : string)
    (w : world) : world :=
  let line := trim line in
  if (String.length line =? 0)%nat then w
  else exec_line int_bits (toUpperCase line) line w.

(** Specification, section 4.1: [delayMicrosForSpeed], with
    [delay = round(1_000_000 / stepsPerSecond)], at least 2. *)
Definition delayMicrosForSpeed_spec (stepsPerRevolution : Z) (dps : float) : Z :=
  let dps_clamped := if F32.leb dps F32.zero then F32.one else dps in
  let stepsPerSecond :=
    F32.max F32.one
      (F32.mul dps_clamped (F32.div (F32.of_Z stepsPerRevolution) F32.f360)) in
  Z.max 2 (F32.round_away (F32.div F32.f1e6 stepsPerSecond)).

(** The same with the integer part in place of the nearest integer. *)
Definition delayMicrosForSpeed_trunc (stepsPerRevolution : Z) (dps : float) : Z :=
  let dps_clamped := if F32.leb dps F32.zero then F32.one else dps in
  let stepsPerSecond :=
    F32.max F32.one
      (F32.mul dps_clamped (F32.div (F32.of_Z stepsPerRevolution) F32.f360)) in
  Z.max 2 (F32.trunc (F32.div F32.f1e6 stepsPerSecond)).

(** Specification, section 4.2 step 3:
    [startDelayUs = max(targetDelayUs + 2, round(targetDelayUs * 1.5))];
    [3 * t / 2] rounded to the nearest integer is [(3 * t + 1) / 2]. *)
Definition startDelayUs_spec (targetDelayUs : Z) : Z :=
  Z.max (targetDelayUs + 2) ((3 * targetDelayUs + 1) / 2).

(** ** Shapes of traces *)

(** What one [pulseOnce] call leaves on the trace. *)
Definition pulse_events (pulPin delayUs : Z) : list event :=
  [ EvDigitalWrite pulPin HIGH; EvDelayMicroseconds (delayUs / 2);
    EvDigitalWrite pulPin LOW; EvDelayMicroseconds (delayUs - delayUs / 2) ].

(** A run of pulses with the given delays, each one right after a read of
    the abort flag that saw it clear. *)
Definition polled_pulses (pulPin : Z) (delays : list Z) : list event :=
  flat_map (fun d => EvPoll false :: pulse_events pulPin d) delays.

Definition start_events (m : Z) (deg : float) : list event :=
  [ EvDigitalWrite (dir (MOT_at m)) (if directionFor deg then HIGH else LOW);
    EvDigitalWrite (ena (MOT_at m)) LOW;
    EvPrint (SStr "MOVING M"); EvPrint (SInt m); EvPrintln (SStr " START") ].

Definition end_events (m : Z) : list event :=
  [ EvPrint (SStr "MOVING M"); EvPrint (SInt m); EvPrintln (SStr " END") ].

(** No abort request is set or still to come. *)
Definition quiet (w : world) : Prop :=
  abortRequested w = false /\ Forall (fun b => b = false) (pending w).

(** Whether an abort request arrives before the next read of the flag. *)
Definition arrived (w : world) : bool :=
  match pending w with b :: _ => b | [] => false end.

(** The delays [f i], [f (i+1)], ... of [n] consecutive loop rounds. *)
Fixpoint delays_from (n : nat) (i : Z) (f : Z -> Z) : list Z :=
  match n with
  | O => []
  | S n' => f i :: delays_from n' (i + 1) f
  end.

(** The delays of the pulses of one move, in order: what [run_profile]
    passes to [pulseOnce] when no abort request interferes. *)
Definition profile_delays (int_bits totalSteps tgtDelayUs rampMs' : Z) : list Z :=
  if (rampMs' =? 0) || (totalSteps <? 10) then
    delays_from (Z.to_nat totalSteps) 0 (fun _ => tgtDelayUs)
  else
    let rampSteps := rampStepsFor totalSteps tgtDelayUs rampMs' in
    let startDelayUs := startDelayFor tgtDelayUs in
    let midSteps := u32 (totalSteps - rampSteps - rampSteps) in
    delays_from (Z.to_nat rampSteps) 0
      (fun i => interpolate int_bits startDelayUs tgtDelayUs (ramp_t rampSteps i))
    ++ delays_from (Z.to_nat midSteps) 0 (fun _ => tgtDelayUs)
    ++ delays_from (Z.to_nat rampSteps) 0
         (fun i => interpolate int_bits tgtDelayUs startDelayUs (ramp_t rampSteps i)).

Definition has_delim (s : string) : bool :=
  existsb is_delim (list_ascii_of_string s).

Definition is_nan (x : float) : bool :=
  match x with S754_nan => true | _ => false end.

(** A float that is not a finite number of magnitude above [2^k]: when it
    is finite and not zero, it is positive and below [2^k]. *)
Definition below_pow2 (k : Z) (x : float) : Prop :=
  match x with
  | S754_finite s m e => s = false /\ Zpos (digits2_pos m) + e <= k
  | _ => True
  end.

(** When it is finite and not zero, it is positive and at least
    [2^(k-1)]. *)
Definition atleast_pow2 (k : Z) (x : float) : Prop :=
  match x with
  | S754_finite s m e => s = false /\ k <= Zpos (digits2_pos m) + e
  | _ => True
  end.

(** A finite number that is zero or positive and below [2^k]. *)
Definition finite_below_pow2 (k : Z) (x : float) : Prop :=
  match x with
  | S754_finite s m e => s = false /\ Zpos (digits2_pos m) + e <= k
  | S754_zero s => s = false
  | _ => False
  end.

(** ** Settings *)

(** The settings the commands store. *)
Definition settings (w : world)
    : list Z * Z * float * float * Z * Z * Z :=
  (stepsPerRev w, aktifMotor w, setAngleDeg w, setSpeedDPS w, pauseMs w,
   repeats w, rampMs w).


(** The ranges the setter commands enforce: five step counts in
    50..200000, a motor in 1..5, a speed that is not 0 or less, a pause of 16
    bits, 1..200 repeats, a ramp of at most 5000 ms. *)
Definition settings_in_range (w : world) : Prop :=
  length (stepsPerRev w) = 5%nat /\
  Forall (fun s => 50 <= s <= 200000) (stepsPerRev w) /\
  1 <= aktifMotor w <= 5 /\
  F32.leb (setSpeedDPS w) F32.zero = false /\
  0 <= pauseMs w < 65536 /\
  1 <= repeats w <= 200 /\
  0 <= rampMs w <= 5000.

(** The lines [parseAndExec] compares whole, before it cuts tokens. *)
Definition one_word_command (u : string) : bool :=
  existsb (String.eqb u) ["HELP"; "?"; "SHOW"; "G"; "ABORT"; "Q"]%string.

(** A world with its trace removed: the state of the sketch and the
    board. *)
Definition state_of (w : world) : world := set_log [] w.

(** The enable pins of the five axes. *)
Definition enable_pins : list Z := map ena MOT.

(** * Properties *)

(** ** Strings and tokens *)

Lemma is_delim_toupper (c : ascii) : is_delim (toupper c) = is_delim c.
Proof. destruct c as [[] [] [] [] [] [] [] []]; reflexivity. Qed.

Lemma toUpperCase_length (s : string) :
  String.length (toUpperCase s) = String.length s.
Proof. induction s as [|c s IH]; simpl; [reflexivity | now rewrite IH]. Qed.

Lemma has_delim_toUpperCase (s : string) :
  has_delim (toUpperCase s) = has_delim s.
Proof.
  unfold has_delim. induction s as [|c s IH]; simpl; [reflexivity|].
  now rewrite is_delim_toupper, IH.
Qed.

Lemma substring_all (n : nat) (s : string) :
  (String.length s <= n)%nat -> substring 0 n s = s.
Proof.
  revert n. induction s as [|c s IH]; intros [|n] H; simpl in *;
    try reflexivity; try lia.
  f_equal. apply IH. lia.
Qed.

Lemma take_token_no_delim (s : string) :
  has_delim s = false -> take_token s = (s, EmptyString).
Proof.
  unfold has_delim. induction s as [|c s IH]; simpl; [reflexivity|].
  intros H. apply orb_false_elim in H as [Hc Hs].
  rewrite Hc, (IH Hs). reflexivity.
Qed.

Lemma strtok_no_delim (s : string) :
  has_delim s = false -> s <> EmptyString -> strtok s = (Some s, EmptyString).
Proof.
  intros H Hne. destruct s as [|c s]; [congruence|].
  unfold strtok.
  assert (Hc : is_delim c = false).
  { unfold has_delim in H. simpl in H. now apply orb_false_elim in H. }
  simpl skip_delims. rewrite Hc.
  now rewrite (take_token_no_delim _ H).
Qed.

(** A line that upper-cases to a word without delimiters is one token. *)
Lemma one_word_line (line word : string) :
  toUpperCase line = word -> has_delim word = false ->
  (0 < String.length word <= 63)%nat ->
  strtok (toCharArray 64 line) = (Some line, EmptyString).
Proof.
  intros Hu Hd Hlen. subst word.
  rewrite has_delim_toUpperCase in Hd. rewrite toUpperCase_length in Hlen.
  unfold toCharArray. rewrite substring_all by (simpl; lia).
  apply strtok_no_delim; [assumption|].
  intros ->. simpl in Hlen. lia.
Qed.

(** When the buffer holds a command word and at least one more token, the
    line is none of the one-word commands and the tokenised branch runs. *)
Lemma parseAndExec_tokens (int_bits : Z) (line cmd rest p rest' : string)
    (w : world) :
  strtok (toCharArray 64 (trim line)) = (Some cmd, rest) ->
  strtok rest = (Some p, rest') ->
  parseAndExec int_bits line w = exec_command int_bits cmd rest w.
Proof.
  intros Hcmd Hp. unfold parseAndExec.
  destruct (String.length (trim line) =? 0)%nat eqn:Hlen.
  { apply Nat.eqb_eq in Hlen.
    destruct (trim line); [discriminate Hcmd | discriminate Hlen]. }
  unfold exec_line, streq.
  assert (Hword : forall word, has_delim word = false ->
             (0 < String.length word <= 63)%nat ->
             String.eqb (toUpperCase (trim line)) word = false).
  { intros word Hd Hl. destruct (String.eqb _ word) eqn:E; [|reflexivity].
    apply String.eqb_eq in E.
    rewrite (one_word_line _ _ E Hd Hl) in Hcmd.
    injection Hcmd as _ <-. discriminate Hp. }
  rewrite !Hword by (first [reflexivity | simpl; lia]).
  simpl. now rewrite Hcmd.
Qed.

(** ** Zero-length moves *)

(** C4. For every axis and signed angle whose [degToSteps] result is 0,
    [moveWithProfile] returns at once and leaves the whole world as it was:
    no direction or enable pin is written, [movingMotor] and
    [abortRequested] keep their values, and nothing is printed (no
    MOVING START or MOVING END line). *)
Theorem zero_length_move_is_noop (int_bits m : Z) (deg dps : float)
    (rampMs' : Z) (w : world) :
  degToSteps m deg w = 0 ->
  moveWithProfile int_bits m deg dps rampMs' w = w.
Proof. intros H. unfold moveWithProfile. now rewrite H. Qed.

Lemma zero_length_move_is_noop_witness :
  degToSteps 1 (atof "0.1") booted = 0 /\
  moveWithProfile 16 1 (atof "0.1") (F32.of_Z 90) 0 booted = booted.
Proof.
  split; [vm_compute; reflexivity|].
  apply zero_length_move_is_noop. vm_compute. reflexivity.
Defined.

(** ** STOP with a motor number outside 1..5 *)

(** C6, as stated, fails: STOP 9 on the booted board sets no abort request
    and disables no axis (it does nothing at all), while STOP without an
    argument does both. *)
Lemma stop_out_of_range_counterexample :
  parseAndExec 16 "STOP 9" booted <> parseAndExec 16 "STOP" booted /\
  parseAndExec 16 "STOP 9" booted = booted /\
  abortRequested (parseAndExec 16 "STOP" booted) = true /\
  abortRequested (parseAndExec 16 "STOP 9" booted) = false /\
  digitalRead 4 (parseAndExec 16 "STOP" booted) = HIGH /\
  digitalRead 4 (parseAndExec 16 "STOP 9" booted) = LOW.
Proof.
  split; [intros H; apply (f_equal abortRequested) in H; vm_compute in H;
          discriminate H|].
  vm_compute. repeat split; reflexivity.
Qed.

(** C6, amended. STOP with a motor argument whose number is outside 1..5
    is ignored: no state changes and nothing is printed (it is not treated
    as the form without argument). *)
Theorem stop_out_of_range_is_ignored (int_bits : Z)
    (line rest pm rest' : string) (w : world) :
  strtok (toCharArray 64 (trim line)) = (Some "STOP"%string, rest) ->
  strtok rest = (Some pm, rest') ->
  in_1_5 (atoi int_bits pm) = false ->
  parseAndExec int_bits line w = w.
Proof.
  intros Hcmd Hpm Hm.
  rewrite (parseAndExec_tokens _ _ _ _ _ _ _ Hcmd Hpm).
  unfold exec_command. simpl. rewrite Hpm, Hm. reflexivity.
Qed.

Lemma stop_out_of_range_is_ignored_witness :
  in_1_5 (atoi 16 "9") = false /\ parseAndExec 16 "STOP 9" booted = booted.
Proof.
  split; [reflexivity|].
  apply (stop_out_of_range_is_ignored 16 "STOP 9" "9" "9" "");
    vm_compute; reflexivity.
Defined.

(** ** Letter case of the command word *)

(** The one-word commands are matched on the upper-cased line: there the
    letter case does not matter. *)
Lemma one_word_commands_ignore_case (int_bits : Z) (line : string) (w : world) :
  In (toUpperCase (trim line)) ["HELP"; "?"; "SHOW"; "G"; "ABORT"; "Q"]%string ->
  parseAndExec int_bits line w =
  parseAndExec int_bits (toUpperCase (trim line)) w.
Proof.
  intros Hin. unfold parseAndExec.
  set (u := toUpperCase (trim line)) in *.
  assert (Hlen : String.length (trim line) = String.length u)
    by (symmetry; apply toUpperCase_length).
  rewrite Hlen.
  assert (Hu : trim u = u /\ toUpperCase u = u /\
               exists b, forall b', exec_line int_bits u b w = exec_line int_bits u b' w).
  { simpl in Hin.
    destruct Hin as [<-|[<-|[<-|[<-|[<-|[<-|[]]]]]]];
      (split; [reflexivity|split; [reflexivity|]]); exists EmptyString;
      reflexivity. }
  destruct Hu as (-> & -> & b & Hb).
  destruct (String.length u =? 0)%nat; [reflexivity|].
  rewrite <- (Hb (toCharArray 64 (trim line))). apply Hb.
Qed.

(** C2 fails on the sketch: the tokenised commands are compared with
    [strcmp] against the line as typed, so 'move 3 45 90' and 'stop 2' are
    unknown commands: on any board they only print the unknown-command line,
    while 'MOVE 3 45 90' selects axis 3 and moves it and 'STOP 2' disables
    axis 2. *)
Theorem lowercase_keyword_is_unknown_command :
  (forall int_bits w,
     parseAndExec int_bits "move 3 45 90" w =
     Serial_println (SStr "Bilinmeyen komut. 'HELP' yaz.") w) /\
  (forall int_bits w,
     parseAndExec int_bits "stop 2" w =
     Serial_println (SStr "Bilinmeyen komut. 'HELP' yaz.") w) /\
  aktifMotor (parseAndExec 16 "MOVE 3 45 90" booted) = 3 /\
  aktifMotor (parseAndExec 16 "move 3 45 90" booted) = 1 /\
  parseAndExec 16 "move 3 45 90" booted <> parseAndExec 16 "MOVE 3 45 90" booted /\
  digitalRead 7 (parseAndExec 16 "STOP 2" booted) = HIGH /\
  digitalRead 7 (parseAndExec 16 "stop 2" booted) = LOW /\
  parseAndExec 16 "stop 2" booted <> parseAndExec 16 "STOP 2" booted.
Proof.
  split; [reflexivity|]. split; [reflexivity|].
  assert (E1 : aktifMotor (parseAndExec 16 "MOVE 3 45 90" booted) = 3)
    by (vm_compute; reflexivity).
  assert (E2 : aktifMotor (parseAndExec 16 "move 3 45 90" booted) = 1)
    by (vm_compute; reflexivity).
  assert (E3 : digitalRead 7 (parseAndExec 16 "STOP 2" booted) = HIGH)
    by (vm_compute; reflexivity).
  assert (E4 : digitalRead 7 (parseAndExec 16 "stop 2" booted) = LOW)
    by (vm_compute; reflexivity).
  repeat split; try assumption.
  - intros H. rewrite H in E2. rewrite E1 in E2. discriminate E2.
  - intros H. rewrite H in E4. rewrite E3 in E4. discriminate E4.
Qed.

(** ** Clamps of the setter commands *)

(** An [int] of at least 16 bits holds the values of a 16-bit one. *)
Lemma to_int_small (int_bits z : Z) :
  16 <= int_bits -> -32768 <= z < 32768 -> to_int int_bits z = z.
Proof.
  intros Hb Hz. unfold to_int, wrap_signed.
  assert (H15 : 2 ^ 15 <= 2 ^ (int_bits - 1))
    by (apply Z.pow_le_mono_r; lia).
  assert (Hp : 2 ^ int_bits = 2 * 2 ^ (int_bits - 1)).
  { replace int_bits with (Z.succ (int_bits - 1)) at 1 by lia.
    apply Z.pow_succ_r. lia. }
  change (2 ^ 15) with 32768 in H15.
  destruct (Z_lt_le_dec z 0) as [Hneg|Hpos].
  - rewrite <- (Z.mod_add z 1) by lia. rewrite Z.mod_small by lia.
    destruct (Z.ltb_spec (z + 1 * 2 ^ int_bits) (2 ^ (int_bits - 1))); lia.
  - rewrite Z.mod_small by lia.
    destruct (Z.ltb_spec z (2 ^ (int_bits - 1))); lia.
Qed.

Lemma rep_0_stores_1 (int_bits : Z) (w : world) :
  16 <= int_bits -> repeats (parseAndExec int_bits "REP 0" w) = 1.
Proof.
  intros Hb. change (parseAndExec int_bits "REP 0" w) with
    (exec_command int_bits "REP" "0" w).
  unfold exec_command. simpl.
  change (atoi int_bits "0") with (to_int int_bits 0).
  rewrite to_int_small by lia. reflexivity.
Qed.

Lemma s_10_is_rejected (int_bits : Z) (w : world) :
  parseAndExec int_bits "S 10" w = w.
Proof. reflexivity. Qed.

Lemma ramp_99999_with_32_bit_int (w : world) :
  rampMs (parseAndExec 32 "RAMP 99999" w) = 5000.
Proof. reflexivity. Qed.

(** C5 on a board with 16-bit [int] (the AVR boards the pin table is
    written for; the sketch itself parses S with [atol] because its range
    does not fit an [int]): 99999 does not fit the [int] that [atoi]
    returns, the value wraps to -31073, the lower clamp applies, and RAMP
    99999 stores 0, not 5000. *)
Theorem ramp_99999_with_16_bit_int (w : world) :
  atoi 16 "99999" = -31073 /\
  rampMs (parseAndExec 16 "RAMP 99999" w) = 0.
Proof. split; reflexivity. Qed.

(** ** The 64-byte token buffer *)

Lemma long_line_is_no_one_word_command (line word : string) :
  (String.length word <= 63 < String.length line)%nat ->
  streq (toUpperCase line) word = false.
Proof.
  intros H. unfold streq. destruct (String.eqb _ word) eqn:E; [|reflexivity].
  apply String.eqb_eq in E. apply (f_equal String.length) in E.
  rewrite toUpperCase_length in E. lia.
Qed.

(** What [parseAndExec] does with a trimmed line of more than 63
    characters depends on its first 63 characters only. *)
Lemma parseAndExec_long_line (int_bits : Z) (line : string) (w : world) :
  (63 < String.length (trim line))%nat ->
  parseAndExec int_bits line w =
  match strtok (substring 0 63 (trim line)) with
  | (None, _) => w
  | (Some cmd, rest) => exec_command int_bits cmd rest w
  end.
Proof.
  intros H. unfold parseAndExec.
  destruct (Nat.eqb_spec (String.length (trim line)) 0) as [E|_]; [lia|].
  unfold exec_line.
  rewrite !long_line_is_no_one_word_command by (simpl; lia).
  reflexivity.
Qed.

(** C9, as stated, fails: a line of 67 characters, RAMP, 60 spaces, 100,
    passes [loop()] whole (it is under the 120 characters of the transport),
    but the interpreter cuts it to 63 characters, finds no parameter and
    leaves [rampMs] at 0, where tokens taken from the entire line give
    RAMP 100. *)
Lemma interpreter_truncates_counterexample :
  let line := ("RAMP" ++ string_of_list_ascii (repeat " "%char 60) ++ "100")%string in
  (String.length line <= 120)%nat /\
  rampMs (parseAndExec_whole_line 16 line booted) = 100 /\
  rampMs (parseAndExec 16 line booted) = 0 /\
  parseAndExec 16 line booted = booted /\
  loop 16 (list_ascii_of_string line ++ ["010"%char]) booted = booted /\
  parseAndExec 16 line booted <> parseAndExec_whole_line 16 line booted.
Proof.
  cbv zeta.
  assert (E1 : rampMs (parseAndExec_whole_line 16
            ("RAMP" ++ string_of_list_ascii (repeat " "%char 60) ++ "100")
            booted) = 100) by (vm_compute; reflexivity).
  assert (E2 : rampMs (parseAndExec 16
            ("RAMP" ++ string_of_list_ascii (repeat " "%char 60) ++ "100")
            booted) = 0) by (vm_compute; reflexivity).
  split; [vm_compute; lia|]. split; [exact E1|]. split; [exact E2|].
  split; [vm_compute; reflexivity|]. split; [vm_compute; reflexivity|].
  intros H. rewrite H in E2. rewrite E1 in E2. discriminate E2.
Qed.

(** C9, amended. The interpreter cuts the tokens from a 64-byte buffer,
    that is from the first 63 characters of the trimmed line: a trimmed line
    of at most 63 characters is tokenised whole, and two lines whose trimmed
    forms are longer than 63 characters and agree on the first 63 have the
    same effect, whatever follows. *)
Theorem interpreter_reads_first_63_characters (int_bits : Z)
    (line line' : string) (w : world) :
  ((String.length (trim line) <= 63)%nat ->
   parseAndExec int_bits line w = parseAndExec_whole_line int_bits line w) /\
  ((63 < String.length (trim line))%nat ->
   (63 < String.length (trim line'))%nat ->
   substring 0 63 (trim line) = substring 0 63 (trim line') ->
   parseAndExec int_bits line w = parseAndExec int_bits line' w).
Proof.
  split.
  - intros H. unfold parseAndExec, parseAndExec_whole_line, toCharArray.
    rewrite substring_all by (simpl; lia). reflexivity.
  - intros H H' E. rewrite !parseAndExec_long_line by assumption.
    now rewrite E.
Qed.

Lemma interpreter_reads_first_63_characters_witness :
  let line := ("RAMP" ++ string_of_list_ascii (repeat " "%char 60) ++ "100")%string in
  let line' := ("RAMP" ++ string_of_list_ascii (repeat " "%char 60) ++ "2500")%string in
  parseAndExec 16 "RAMP 100" booted = parseAndExec_whole_line 16 "RAMP 100" booted /\
  parseAndExec 16 line booted = parseAndExec 16 line' booted.
Proof.
  cbv zeta. split.
  - apply (interpreter_reads_first_63_characters 16 "RAMP 100" "" booted).
    vm_compute. lia.
  - apply (interpreter_reads_first_63_characters 16);
      vm_compute; first [lia | reflexivity].
Defined.

(** ** Traces of the pulse loops *)

Ltac unfold_board :=
  cbn beta iota zeta delta
    [pulseOnce read_abortRequested digitalWrite delayMicroseconds delay
     Serial_print Serial_println enaOn enaOff emit pinModeOutput
     set_log set_pins set_pending set_abortRequested set_movingMotor
     set_aktifMotor set_stepsPerRev set_setAngleDeg set_setSpeedDPS
     set_pauseMs set_repeats set_rampMs set_inbuf
     log pins pending abortRequested movingMotor aktifMotor rampMs
     stepsPerRev setAngleDeg setSpeedDPS pauseMs repeats inbuf fst snd] in *.

Lemma pulseOnce_log (pin d : Z) (w : world) :
  log (pulseOnce pin d w) = log w ++ pulse_events pin d.
Proof.
  unfold_board. unfold pulse_events. now rewrite <- !app_assoc.
Qed.

Lemma pulseOnce_flag (pin d : Z) (w : world) :
  abortRequested (pulseOnce pin d w) = abortRequested w /\
  pending (pulseOnce pin d w) = pending w /\
  aktifMotor (pulseOnce pin d w) = aktifMotor w.
Proof. unfold_board. auto. Qed.

Lemma polled_pulses_app (pin : Z) (a b : list Z) :
  polled_pulses pin (a ++ b) = polled_pulses pin a ++ polled_pulses pin b.
Proof. unfold polled_pulses. apply flat_map_app. Qed.

Lemma read_abortRequested_facts (w : world) :
  let (seen, w1) := read_abortRequested w in
  seen = abortRequested w || arrived w /\
  log w1 = log w ++ [EvPoll seen] /\
  abortRequested w1 = seen /\
  pending w1 = tail (pending w) /\
  aktifMotor w1 = aktifMotor w.
Proof. unfold read_abortRequested, arrived. unfold_board. auto. Qed.

Lemma pulse_loop_S (rounds : nat) (i : Z) (f : Z -> Z) (pin : Z) (w : world) :
  pulse_loop (S rounds) i f pin w =
  let (seen, w1) := read_abortRequested w in
  if seen then w1
  else pulse_loop rounds (i + 1) f pin (pulseOnce pin (f i) w1).
Proof. reflexivity. Qed.

(** Once the flag is set, a loop only reads it (once, if it has a round to
    go) and gives no pulse. *)
Lemma pulse_loop_aborted (rounds : nat) (i : Z) (f : Z -> Z) (pin : Z)
    (w : world) :
  abortRequested w = true ->
  exists j, log (pulse_loop rounds i f pin w) = log w ++ repeat (EvPoll true) j /\
            abortRequested (pulse_loop rounds i f pin w) = true.
Proof.
  intros Hset. destruct rounds as [|rounds].
  - exists 0%nat. simpl. now rewrite app_nil_r.
  - exists 1%nat. rewrite pulse_loop_S.
    pose proof (read_abortRequested_facts w) as H.
    destruct (read_abortRequested w) as [seen w1].
    destruct H as (Hseen & Hlog & Hflag & _).
    rewrite Hset in Hseen. simpl in Hseen. subst seen. simpl. auto.
Qed.

(** The trace of a loop: pulses, each right after a read that saw the flag
    clear, then at most a read that saw it set; in that case the flag is
    set when the loop is left. *)
Lemma pulse_loop_shape (rounds : nat) (i : Z) (f : Z -> Z) (pin : Z)
    (w : world) :
  exists ds j,
    log (pulse_loop rounds i f pin w) =
      log w ++ polled_pulses pin ds ++ repeat (EvPoll true) j /\
    (j = 0%nat \/ abortRequested (pulse_loop rounds i f pin w) = true).
Proof.
  revert i w. induction rounds as [|rounds IH]; intros i w.
  - exists [], 0%nat. simpl. rewrite app_nil_r. auto.
  - rewrite pulse_loop_S. cbn [delays_from].
    pose proof (read_abortRequested_facts w) as H.
    destruct (read_abortRequested w) as [seen w1].
    destruct H as (_ & Hlog & Hflag & _).
    destruct seen.
    + exists [], 1%nat. simpl. auto.
    + destruct (IH (i + 1) (pulseOnce pin (f i) w1)) as (ds & j & Hl & Hj).
      exists (f i :: ds), j. split; [|exact Hj].
      rewrite Hl, pulseOnce_log, Hlog. simpl.
      rewrite <- !app_assoc. reflexivity.
Qed.

(** With no abort request set or to come, a loop gives one pulse per round
    and stays quiet. *)
Lemma pulse_loop_quiet (rounds : nat) (i : Z) (f : Z -> Z) (pin : Z)
    (w : world) :
  quiet w ->
  log (pulse_loop rounds i f pin w) =
    log w ++ polled_pulses pin (delays_from rounds i f) /\
  quiet (pulse_loop rounds i f pin w).
Proof.
  revert i w. induction rounds as [|rounds IH]; intros i w [Hflag Hpend].
  - simpl. rewrite app_nil_r. split; [reflexivity | split; assumption].
  - rewrite pulse_loop_S. cbn [delays_from].
    pose proof (read_abortRequested_facts w) as H.
    destruct (read_abortRequested w) as [seen w1].
    destruct H as (Hseen & Hlog & Hflag1 & Hpend1 & _).
    assert (seen = false) as ->.
    { rewrite Hseen, Hflag. unfold arrived.
      destruct (pending w) as [|b l]; [reflexivity | now inversion Hpend]. }
    destruct (pulseOnce_flag pin (f i) w1) as (Ef & Ep & _).
    destruct (IH (i + 1) (pulseOnce pin (f i) w1)) as (Hl & Hq).
    { split; [congruence|]. rewrite Ep, Hpend1.
      destruct (pending w); simpl; [constructor | now inversion Hpend]. }
    split; [|exact Hq].
    rewrite Hl, pulseOnce_log, Hlog. simpl.
    rewrite <- !app_assoc. reflexivity.
Qed.

Lemma delays_from_length (n : nat) (i : Z) (f : Z -> Z) :
  length (delays_from n i f) = n.
Proof. revert i. induction n; intros i; simpl; [reflexivity | now rewrite IHn]. Qed.

(** Three loops in a row, as in the trapezoidal branch. *)
Lemma three_loops_shape (n1 n2 n3 : nat) (f1 f2 f3 : Z -> Z) (pin : Z)
    (w : world) :
  exists ds j,
    log (pulse_loop n3 0 f3 pin
           (pulse_loop n2 0 f2 pin (pulse_loop n1 0 f1 pin w))) =
      log w ++ polled_pulses pin ds ++ repeat (EvPoll true) j.
Proof.
  destruct (pulse_loop_shape n1 0 f1 pin w) as (ds1 & j1 & H1 & F1).
  set (w1 := pulse_loop n1 0 f1 pin w) in *.
  destruct F1 as [-> | F1].
  - destruct (pulse_loop_shape n2 0 f2 pin w1) as (ds2 & j2 & H2 & F2).
    set (w2 := pulse_loop n2 0 f2 pin w1) in *.
    destruct F2 as [-> | F2].
    + destruct (pulse_loop_shape n3 0 f3 pin w2) as (ds3 & j3 & H3 & _).
      exists (ds1 ++ ds2 ++ ds3), j3.
      rewrite H3, H2, H1. simpl. rewrite !app_nil_r, !polled_pulses_app.
      now rewrite <- !app_assoc.
    + destruct (pulse_loop_aborted n3 0 f3 pin w2 F2) as (j3 & H3 & _).
      exists (ds1 ++ ds2), (j2 + j3)%nat.
      rewrite H3, H2, H1. simpl. rewrite !app_nil_r, !polled_pulses_app.
      rewrite repeat_app. now rewrite <- !app_assoc.
  - destruct (pulse_loop_aborted n2 0 f2 pin w1 F1) as (j2 & H2 & F2).
    set (w2 := pulse_loop n2 0 f2 pin w1) in *.
    destruct (pulse_loop_aborted n3 0 f3 pin w2 F2) as (j3 & H3 & _).
    exists ds1, (j1 + (j2 + j3))%nat.
    rewrite H3, H2, H1. rewrite !repeat_app. now rewrite <- !app_assoc.
Qed.

(** The trace of the pulses of a move, whatever abort requests arrive:
    pulses each right after a read that saw the flag clear, then only reads
    that saw the flag set. *)
Lemma run_profile_shape (int_bits pin totalSteps tgtDelayUs rampMs' : Z)
    (w : world) :
  exists ds j,
    log (run_profile int_bits pin totalSteps tgtDelayUs rampMs' w) =
      log w ++ polled_pulses pin ds ++ repeat (EvPoll true) j.
Proof.
  unfold run_profile.
  destruct ((rampMs' =? 0) || (totalSteps <? 10)).
  - destruct (pulse_loop_shape (Z.to_nat totalSteps) 0 (fun _ => tgtDelayUs)
                pin w) as (ds & j & H & _). eauto.
  - cbv zeta. apply three_loops_shape.
Qed.

(** C1. A move that starts (its step count is not 0) leaves this on the
    trace: the start actions and the MOVING START line; then pulses, each
    one immediately after a read of [abortRequested] that saw it clear; then,
    if a read saw the flag set, nothing but such reads (no further pulse);
    then the MOVING END line.  [movingMotor] is 0 afterwards. *)
Theorem abort_stops_pulses (int_bits m : Z) (deg dps : float) (rampMs' : Z)
    (w : world) :
  degToSteps m deg w <> 0 ->
  exists (delays : list Z) (reads_set : nat),
    log (moveWithProfile int_bits m deg dps rampMs' w) =
      log w ++ start_events m deg
        ++ polled_pulses (pul (MOT_at m)) delays
        ++ repeat (EvPoll true) reads_set
        ++ end_events m /\
    movingMotor (moveWithProfile int_bits m deg dps rampMs' w) = 0.
Proof.
  intros Hsteps. unfold moveWithProfile.
  destruct (Z.eqb_spec (degToSteps m deg w) 0) as [E|_]; [contradiction|].
  match goal with |- context [run_profile int_bits ?pin ?n ?t ?r ?w0] =>
    destruct (run_profile_shape int_bits pin n t r w0) as (ds & j & H) end.
  exists ds, j. split; [|reflexivity].
  unfold_board. rewrite H. unfold_board.
  unfold start_events, end_events. rewrite <- !app_assoc. reflexivity.
Qed.

Lemma abort_stops_pulses_witness :
  let w := set_pending [false; false; true] booted in
  degToSteps 1 (F32.of_Z 3) w <> 0 /\
  exists (delays : list Z) (reads_set : nat),
    log (moveWithProfile 16 1 (F32.of_Z 3) (F32.of_Z 90) 100 w) =
      log w ++ start_events 1 (F32.of_Z 3)
        ++ polled_pulses (pul (MOT_at 1)) delays
        ++ repeat (EvPoll true) reads_set
        ++ end_events 1 /\
    movingMotor (moveWithProfile 16 1 (F32.of_Z 3) (F32.of_Z 90) 100 w) = 0.
Proof.
  cbv zeta. split; [vm_compute; discriminate|].
  apply abort_stops_pulses. vm_compute. discriminate.
Defined.

(** An abort request that arrives before the third read of the flag: two
    pulses, one read that sees the flag set in each of the three loops of the
    ramp branch, the END line. *)
Example abort_after_two_pulses :
  log (moveWithProfile 16 1 (F32.of_Z 3) (F32.of_Z 90) 100
         (set_pending [false; false; true] booted)) =
  start_events 1 (F32.of_Z 3)
    ++ polled_pulses 2 [3748; 3498]
    ++ repeat (EvPoll true) 3
    ++ end_events 1.
Proof. vm_compute. reflexivity. Qed.

(** ** The motor selection of MOVE and TEST *)

Lemma pulse_loop_aktifMotor (rounds : nat) (i : Z) (f : Z -> Z) (pin : Z)
    (w : world) :
  aktifMotor (pulse_loop rounds i f pin w) = aktifMotor w.
Proof.
  revert i w. induction rounds as [|rounds IH]; intros i w; [reflexivity|].
  rewrite pulse_loop_S.
  pose proof (read_abortRequested_facts w) as H.
  destruct (read_abortRequested w) as [seen w1].
  destruct H as (_ & _ & _ & _ & Ha).
  destruct seen; [exact Ha|].
  rewrite IH. destruct (pulseOnce_flag pin (f i) w1) as (_ & _ & E).
  congruence.
Qed.

Lemma run_profile_aktifMotor (int_bits pin totalSteps tgtDelayUs rampMs' : Z)
    (w : world) :
  aktifMotor (run_profile int_bits pin totalSteps tgtDelayUs rampMs' w) =
  aktifMotor w.
Proof.
  unfold run_profile. destruct ((rampMs' =? 0) || (totalSteps <? 10));
    cbv zeta; now rewrite !pulse_loop_aktifMotor.
Qed.

Lemma moveWithProfile_aktifMotor (int_bits m : Z) (deg dps : float)
    (rampMs' : Z) (w : world) :
  aktifMotor (moveWithProfile int_bits m deg dps rampMs' w) = aktifMotor w.
Proof.
  unfold moveWithProfile. destruct (degToSteps m deg w =? 0); [reflexivity|].
  unfold_board. now rewrite run_profile_aktifMotor.
Qed.

Lemma test_loop_aktifMotor (int_bits : Z) (rounds : nat) (i m : Z)
    (deg dps : float) (rep pms : Z) (w : world) :
  aktifMotor (test_loop int_bits rounds i m deg dps rep pms w) = aktifMotor w.
Proof.
  revert i w. induction rounds as [|rounds IH]; intros i w; [reflexivity|].
  cbn [test_loop].
  pose proof (read_abortRequested_facts w) as H.
  destruct (read_abortRequested w) as [seen w1].
  destruct H as (_ & _ & _ & _ & Ha).
  destruct seen; [exact Ha|].
  set (w2 := moveWithProfile int_bits m (F32.abs deg) dps (rampMs w1) w1).
  assert (E2 : aktifMotor w2 = aktifMotor w)
    by (unfold w2; now rewrite moveWithProfile_aktifMotor).
  pose proof (read_abortRequested_facts w2) as H.
  destruct (read_abortRequested w2) as [seen2 w3].
  destruct H as (_ & _ & _ & _ & Ha3).
  destruct seen2; [congruence|].
  rewrite IH.
  destruct (i + 1 <? rep); unfold_board;
    rewrite moveWithProfile_aktifMotor; unfold_board; congruence.
Qed.

(** An accepted MOVE: the buffer holds MOVE and three more tokens, the
    motor number is in 1..5 and the speed above 0. *)
Lemma move_command_effect (int_bits : Z) (line r0 pm r1 pd r2 pv r3 : string)
    (w : world) :
  strtok (toCharArray 64 (trim line)) = (Some "MOVE"%string, r0) ->
  strtok r0 = (Some pm, r1) ->
  strtok r1 = (Some pd, r2) ->
  strtok r2 = (Some pv, r3) ->
  in_1_5 (atoi int_bits pm) = true ->
  F32.gtb (atof pv) F32.zero = true ->
  let m := atoi int_bits pm in
  let w0 := set_abortRequested false (set_aktifMotor m w) in
  parseAndExec int_bits line w =
    moveWithProfile int_bits m (atof pd) (atof pv) (rampMs w) w0 /\
  aktifMotor w0 = m /\ abortRequested w0 = false /\
  aktifMotor (parseAndExec int_bits line w) = m.
Proof.
  intros Hcmd Hm Hd Hv Hrange Hspeed. cbv zeta.
  set (m := atoi int_bits pm) in *.
  set (w0 := set_abortRequested false (set_aktifMotor m w)).
  assert (E : parseAndExec int_bits line w =
              moveWithProfile int_bits m (atof pd) (atof pv) (rampMs w) w0).
  { rewrite (parseAndExec_tokens _ _ _ _ _ _ _ Hcmd Hm).
    unfold exec_command. simpl. rewrite Hm, Hd, Hv.
    fold m. rewrite Hrange, Hspeed. reflexivity. }
  split; [exact E|]. split; [reflexivity|]. split; [reflexivity|].
  rewrite E. apply moveWithProfile_aktifMotor.
Qed.

(** An accepted TEST: the buffer holds TEST and five more tokens, the
    motor number is in 1..5, the speed above 0 and the repeat count at
    least 1. *)
Lemma test_command_effect (int_bits : Z)
    (line r0 pm r1 pd r2 pv r3 pr r4 pp r5 : string) (w : world) :
  strtok (toCharArray 64 (trim line)) = (Some "TEST"%string, r0) ->
  strtok r0 = (Some pm, r1) ->
  strtok r1 = (Some pd, r2) ->
  strtok r2 = (Some pv, r3) ->
  strtok r3 = (Some pr, r4) ->
  strtok r4 = (Some pp, r5) ->
  in_1_5 (atoi int_bits pm) = true ->
  F32.gtb (atof pv) F32.zero = true ->
  1 <= atoi int_bits pr ->
  let m := atoi int_bits pm in
  let rep := atoi int_bits pr in
  let w0 := set_abortRequested false (set_aktifMotor m w) in
  parseAndExec int_bits line w =
    test_loop int_bits (Z.to_nat rep) 0 m (atof pd) (atof pv) rep
      (atoi int_bits pp) w0 /\
  aktifMotor w0 = m /\ abortRequested w0 = false /\
  aktifMotor (parseAndExec int_bits line w) = m.
Proof.
  intros Hcmd Hm Hd Hv Hr Hp Hrange Hspeed Hrep. cbv zeta.
  set (m := atoi int_bits pm) in *.
  set (rep := atoi int_bits pr) in *.
  set (w0 := set_abortRequested false (set_aktifMotor m w)).
  assert (E : parseAndExec int_bits line w =
              test_loop int_bits (Z.to_nat rep) 0 m (atof pd) (atof pv) rep
                (atoi int_bits pp) w0).
  { rewrite (parseAndExec_tokens _ _ _ _ _ _ _ Hcmd Hm).
    unfold exec_command. simpl. rewrite Hm, Hd, Hv, Hr, Hp.
    fold m rep. rewrite Hrange, Hspeed.
    destruct (Z.leb_spec 1 rep) as [_|?]; [reflexivity | lia]. }
  split; [exact E|]. split; [reflexivity|]. split; [reflexivity|].
  rewrite E. apply test_loop_aktifMotor.
Qed.

(** C10. Every accepted MOVE m deg dps (m in 1..5, dps above 0) and every
    accepted TEST m deg dps rep pause (m in 1..5, dps above 0, rep at least
    1) first stores m in [aktifMotor] and clears [abortRequested], then
    moves from that state; [aktifMotor] is still m when the command
    returns, so the following G, Q, S and SHOW work on axis m. *)
Theorem move_and_test_select_the_motor (int_bits : Z) (w : world) :
  (forall line r0 pm r1 pd r2 pv r3,
     strtok (toCharArray 64 (trim line)) = (Some "MOVE"%string, r0) ->
     strtok r0 = (Some pm, r1) ->
     strtok r1 = (Some pd, r2) ->
     strtok r2 = (Some pv, r3) ->
     in_1_5 (atoi int_bits pm) = true ->
     F32.gtb (atof pv) F32.zero = true ->
     let m := atoi int_bits pm in
     let w0 := set_abortRequested false (set_aktifMotor m w) in
     parseAndExec int_bits line w =
       moveWithProfile int_bits m (atof pd) (atof pv) (rampMs w) w0 /\
     aktifMotor w0 = m /\ abortRequested w0 = false /\
     aktifMotor (parseAndExec int_bits line w) = m) /\
  (forall line r0 pm r1 pd r2 pv r3 pr r4 pp r5,
     strtok (toCharArray 64 (trim line)) = (Some "TEST"%string, r0) ->
     strtok r0 = (Some pm, r1) ->
     strtok r1 = (Some pd, r2) ->
     strtok r2 = (Some pv, r3) ->
     strtok r3 = (Some pr, r4) ->
     strtok r4 = (Some pp, r5) ->
     in_1_5 (atoi int_bits pm) = true ->
     F32.gtb (atof pv) F32.zero = true ->
     1 <= atoi int_bits pr ->
     let m := atoi int_bits pm in
     let rep := atoi int_bits pr in
     let w0 := set_abortRequested false (set_aktifMotor m w) in
     parseAndExec int_bits line w =
       test_loop int_bits (Z.to_nat rep) 0 m (atof pd) (atof pv) rep
         (atoi int_bits pp) w0 /\
     aktifMotor w0 = m /\ abortRequested w0 = false /\
     aktifMotor (parseAndExec int_bits line w) = m).
Proof.
  split; intros.
  - eapply move_command_effect; eassumption.
  - eapply test_command_effect; eassumption.
Qed.

Lemma move_and_test_select_the_motor_witness :
  aktifMotor (parseAndExec 16 "MOVE 3 45 90" booted) = 3 /\
  aktifMotor (parseAndExec 16 "TEST 2 10 90 3 200" booted) = 2.
Proof.
  split.
  - apply (proj1 (move_and_test_select_the_motor 16 booted)
             "MOVE 3 45 90" "3 45 90" "3" "45 90" "45" "90" "90" "")%string;
      vm_compute; reflexivity.
  - apply (proj2 (move_and_test_select_the_motor 16 booted)
             "TEST 2 10 90 3 200" "2 10 90 3 200" "2" "10 90 3 200" "10"
             "90 3 200" "90" "3 200" "3" "200" "200" "")%string;
      vm_compute; first [reflexivity | discriminate].
Defined.


(** After MOVE 3 ... the setter S works on axis 3. *)
Example s_after_move_sets_axis_3 :
  stepsPerRev (parseAndExec 16 "S 3200" (parseAndExec 16 "MOVE 3 45 90" booted))
  = [1600; 1600; 3200; 1600; 1600].
Proof. vm_compute. reflexivity. Qed.

(** ** Magnitudes of single-precision results *)

Lemma digits2_pos_bounds (p : positive) :
  2 ^ (Zpos (digits2_pos p) - 1) <= Zpos p < 2 ^ Zpos (digits2_pos p).
Proof.
  induction p as [p IH|p IH|]; cbn [digits2_pos].
  - rewrite Pos2Z.inj_succ.
    replace (Z.succ (Zpos (digits2_pos p)) - 1) with (Z.succ (Zpos (digits2_pos p) - 1)) by lia.
    rewrite !Z.pow_succ_r by lia. lia.
  - rewrite Pos2Z.inj_succ.
    replace (Z.succ (Zpos (digits2_pos p)) - 1) with (Z.succ (Zpos (digits2_pos p) - 1)) by lia.
    rewrite !Z.pow_succ_r by lia. lia.
  - simpl. lia.
Qed.

Lemma Zdigits2_nonneg (m : Z) : 0 <= Zdigits2 m.
Proof. destruct m; simpl; lia. Qed.

Lemma Zdigits2_bounds (m : Z) :
  0 < m -> 2 ^ (Zdigits2 m - 1) <= m < 2 ^ Zdigits2 m.
Proof. destruct m as [|p|p]; try lia. intros _. apply digits2_pos_bounds. Qed.

Lemma Zdigits2_le (m k : Z) : 0 <= m < 2 ^ k -> 0 <= k -> Zdigits2 m <= k.
Proof.
  intros [H0 Hk] Hk0. destruct (Z.eq_dec m 0) as [->|Hne]; [simpl; lia|].
  destruct (Zdigits2_bounds m ltac:(lia)) as [Hlo _].
  destruct (Z_le_gt_dec (Zdigits2 m) k) as [|Hgt]; [assumption|].
  assert (2 ^ k <= 2 ^ (Zdigits2 m - 1)) by (apply Z.pow_le_mono_r; lia).
  lia.
Qed.

Lemma Zdigits2_ge (m k : Z) : 2 ^ k <= m -> 0 <= k -> k + 1 <= Zdigits2 m.
Proof.
  intros Hk Hk0.
  assert (0 < m) by (pose proof (Z.pow_pos_nonneg 2 k); lia).
  destruct (Zdigits2_bounds m ltac:(lia)) as [_ Hhi].
  destruct (Z_le_gt_dec (k + 1) (Zdigits2 m)) as [|Hgt]; [assumption|].
  assert (2 ^ Zdigits2 m <= 2 ^ k)
    by (apply Z.pow_le_mono_r; pose proof (Zdigits2_nonneg m); lia).
  lia.
Qed.

Lemma Zdigits2_mono (a b : Z) : 0 <= a <= b -> Zdigits2 a <= Zdigits2 b.
Proof.
  intros [Ha Hab]. destruct (Z.eq_dec b 0) as [->|Hb].
  { replace a with 0 by lia. lia. }
  apply Zdigits2_le; [|apply Zdigits2_nonneg].
  destruct (Zdigits2_bounds b ltac:(lia)). lia.
Qed.

Lemma Zdigits2_succ (m : Z) : 0 <= m -> Zdigits2 (m + 1) <= Zdigits2 m + 1.
Proof.
  intros Hm. destruct (Z.eq_dec m 0) as [->|Hne]; [simpl; lia|].
  destruct (Zdigits2_bounds m ltac:(lia)) as [_ Hhi].
  pose proof (Zdigits2_nonneg m).
  apply Zdigits2_le; [|lia].
  rewrite Z.pow_add_r by lia. change (2 ^ 1) with 2. lia.
Qed.

Lemma Zdigits2_mul (a b : Z) :
  0 < a -> 0 < b -> Zdigits2 (a * b) <= Zdigits2 a + Zdigits2 b.
Proof.
  intros Ha Hb.
  destruct (Zdigits2_bounds a Ha) as [_ Ha'].
  destruct (Zdigits2_bounds b Hb) as [_ Hb'].
  pose proof (Zdigits2_nonneg a). pose proof (Zdigits2_nonneg b).
  apply Zdigits2_le; [|lia].
  rewrite Z.pow_add_r by lia. nia.
Qed.

Lemma div_pos_inv (a b : Z) : 0 <= a -> 0 < b -> 0 < a / b -> b <= a.
Proof.
  intros Ha Hb Hq. destruct (Z_lt_le_dec a b) as [Hlt|]; [|assumption].
  rewrite Z.div_small in Hq; lia.
Qed.

(** Digits of a quotient by a power of two. *)
Lemma Zdigits2_shift (m n : Z) :
  0 < m -> 0 <= n -> 0 < m / 2 ^ n ->
  Zdigits2 (m / 2 ^ n) = Zdigits2 m - n.
Proof.
  intros Hm Hn Hq.
  destruct (Zdigits2_bounds m Hm) as [Hlo Hhi].
  destruct (Zdigits2_bounds _ Hq) as [Hqlo Hqhi].
  pose proof (Zdigits2_nonneg m). pose proof (Zdigits2_nonneg (m / 2 ^ n)).
  assert (Hp : 0 < 2 ^ n) by (apply Z.pow_pos_nonneg; lia).
  assert (Hmq : 2 ^ n * (m / 2 ^ n) <= m < 2 ^ n * (m / 2 ^ n + 1)).
  { pose proof (Z.mul_div_le m (2 ^ n) Hp).
    pose proof (Z.mul_succ_div_gt m (2 ^ n) Hp). lia. }
  apply Z.le_antisymm.
  - (* m / 2^n < 2^(D m - n) *)
    destruct (Z_le_gt_dec n (Zdigits2 m)) as [Hle|Hgt].
    + apply Zdigits2_le; [|lia]. split; [lia|].
      apply Z.div_lt_upper_bound; [lia|].
      rewrite <- Z.pow_add_r by lia. now replace (n + (Zdigits2 m - n)) with (Zdigits2 m) by lia.
    + assert (2 ^ Zdigits2 m <= 2 ^ n) by (apply Z.pow_le_mono_r; lia).
      rewrite Z.div_small in Hq by lia. lia.
  - (* 2^(D m - 1) <= m < 2^n * 2^(D q) *)
    assert (Hlt : 2 ^ (Zdigits2 m - 1) < 2 ^ (n + Zdigits2 (m / 2 ^ n))).
    { rewrite Z.pow_add_r by lia. nia. }
    apply Z.pow_lt_mono_r_iff in Hlt; lia.
Qed.

(** *** Shifting a mantissa right *)

Lemma shr_1_m (mrs : shr_record) :
  0 <= shr_m mrs -> shr_m (shr_1 mrs) = shr_m mrs / 2.
Proof.
  destruct mrs as [m r s]. cbn [shr_m]. intros Hm.
  destruct m as [|[p|p|]|p]; cbn [shr_1 shr_m].
  - reflexivity.
  - rewrite Pos2Z.inj_xI. apply Z.div_unique with (r := 1); lia.
  - rewrite Pos2Z.inj_xO. apply Z.div_unique with (r := 0); lia.
  - reflexivity.
  - lia.
Qed.

Lemma pow2_xO (p : positive) : 2 ^ Zpos p~0 = 2 ^ Zpos p * 2 ^ Zpos p.
Proof. rewrite Pos2Z.inj_xO, <- Z.pow_add_r by lia. f_equal. lia. Qed.

Lemma pow2_xI (p : positive) : 2 ^ Zpos p~1 = 2 * (2 ^ Zpos p * 2 ^ Zpos p).
Proof.
  rewrite Pos2Z.inj_xI, <- Z.pow_add_r by lia.
  replace (2 * Zpos p + 1) with (Z.succ (Zpos p + Zpos p)) by lia.
  now rewrite Z.pow_succ_r by lia.
Qed.

Lemma shr_iter_m (p : positive) (mrs : shr_record) :
  0 <= shr_m mrs ->
  shr_m (SpecFloat.iter_pos shr_1 p mrs) = shr_m mrs / 2 ^ Zpos p.
Proof.
  revert mrs. induction p as [p IH|p IH|]; intros mrs Hm;
    cbn [SpecFloat.iter_pos].
  - assert (Hp : 0 < 2 ^ Zpos p) by (apply Z.pow_pos_nonneg; lia).
    assert (H1 : 0 <= shr_m (shr_1 mrs))
      by (rewrite shr_1_m by assumption; apply Z.div_pos; lia).
    assert (H2 : 0 <= shr_m (SpecFloat.iter_pos shr_1 p (shr_1 mrs)))
      by (rewrite IH by assumption; apply Z.div_pos; lia).
    rewrite IH, IH, shr_1_m by assumption.
    rewrite !Z.div_div by lia. now rewrite pow2_xI.
  - assert (Hp : 0 < 2 ^ Zpos p) by (apply Z.pow_pos_nonneg; lia).
    assert (H2 : 0 <= shr_m (SpecFloat.iter_pos shr_1 p mrs))
      by (rewrite IH by assumption; apply Z.div_pos; lia).
    rewrite IH, IH by assumption.
    rewrite !Z.div_div by lia. now rewrite pow2_xO.
  - rewrite shr_1_m by assumption. reflexivity.
Qed.

Lemma shr_record_of_loc_m (m : Z) (l : location) :
  shr_m (shr_record_of_loc m l) = m.
Proof. destruct l as [|[]]; reflexivity. Qed.

(** The first component of [shr_fexp]: the mantissa divided by the power
    of two that brings the exponent to [fexp]. *)
Lemma shr_fexp_spec (m e : Z) (l : location) :
  0 <= m ->
  let n := fexp F32.prec F32.emax (Zdigits2 m + e) - e in
  let (mrs, e') := shr_fexp F32.prec F32.emax m e l in
  (n <= 0 -> shr_m mrs = m /\ e' = e) /\
  (0 < n -> shr_m mrs = m / 2 ^ n /\ e' = e + n).
Proof.
  intros Hm n. unfold shr_fexp. fold n. unfold shr.
  destruct n as [|p|p] eqn:En.
  - split; [intros _|lia]. now rewrite shr_record_of_loc_m.
  - split; [lia|intros _].
    rewrite shr_iter_m by (rewrite shr_record_of_loc_m; lia).
    now rewrite shr_record_of_loc_m.
  - split; [intros _|lia]. now rewrite shr_record_of_loc_m.
Qed.

Lemma round_nearest_even_bounds (m : Z) (l : location) :
  m <= round_nearest_even m l <= m + 1.
Proof.
  destruct l as [|[]]; cbn [round_nearest_even]; try lia.
  destruct (Z.even m); lia.
Qed.

(** *** Rounding *)

(** The result of rounding the mantissa [mx] at exponent [ex]: its sign is
    the one given, its magnitude [digits + exponent] is that of the input or
    one more, and it overflows only from a large magnitude. *)
Lemma binary_round_aux_magnitude (sx : bool) (mx ex : Z) (lx : location) :
  0 <= mx ->
  match binary_round_aux F32.prec F32.emax sx mx ex lx with
  | S754_finite s m e =>
      s = sx /\
      Zdigits2 mx + ex <= Zpos (digits2_pos m) + e
        <= Z.max (Zdigits2 mx + ex + 1) (-148)
  | S754_zero s => s = sx
  | S754_infinity s => s = sx /\ 104 < Z.max ex (Zdigits2 mx + ex - 23)
  | S754_nan => False
  end.
Proof.
  intros Hmx. unfold binary_round_aux.
  pose proof (shr_fexp_spec mx ex lx Hmx) as H1. cbv zeta in H1.
  destruct (shr_fexp F32.prec F32.emax mx ex lx) as [mrs1 e1].
  set (n1 := fexp F32.prec F32.emax (Zdigits2 mx + ex) - ex) in H1.
  set (m1 := shr_m mrs1) in *.
  pose proof (round_nearest_even_bounds m1 (loc_of_shr_record mrs1)) as Hr.
  set (m1' := round_nearest_even m1 (loc_of_shr_record mrs1)) in *.
  assert (Hm1 : 0 <= m1).
  { destruct (Z_le_gt_dec n1 0) as [Hn|Hn].
    - destruct (proj1 H1 Hn) as [-> _]. assumption.
    - destruct (proj2 H1 ltac:(lia)) as [-> _].
      apply Z.div_pos; [lia | apply Z.pow_pos_nonneg; lia]. }
  assert (HA : (0 < m1 -> Zdigits2 m1 + e1 = Zdigits2 mx + ex) /\
               (m1 = 0 -> Zdigits2 mx + ex <= e1 <= Z.max (Zdigits2 mx + ex) (-149)) /\
               e1 <= Z.max ex (Z.max (Zdigits2 mx + ex - 24) (-149))).
  { unfold n1, fexp, emin, F32.prec, F32.emax in *.
    destruct (Z_le_gt_dec (Z.max (Zdigits2 mx + ex - 24) (3 - 128 - 24) - ex) 0) as [Hn|Hn].
    - destruct (proj1 H1 Hn) as [E1 E2]. fold m1 in E1. rewrite E1, E2.
      split; [lia|]. split; [|lia]. intros Hz. rewrite Hz. change (Zdigits2 0) with 0. lia.
    - destruct (proj2 H1 ltac:(lia)) as [E1 E2]. fold m1 in E1.
      split; [|split].
      + intros Hpos. rewrite E1 in Hpos |- *. rewrite E2.
        rewrite Zdigits2_shift; [lia| |lia|assumption].
        apply div_pos_inv in Hpos; [|lia|apply Z.pow_pos_nonneg; lia].
        pose proof (Z.pow_pos_nonneg 2 (Z.max (Zdigits2 mx + ex - 24) (3 - 128 - 24) - ex)).
        lia.
      + intros Hz. rewrite E2. split; [|lia].
        destruct (Z.eq_dec mx 0) as [->|Hne]; [change (Zdigits2 0) with 0 in *; lia|].
        rewrite Hz in E1. symmetry in E1.
        apply Z.div_small_iff in E1; [|apply Z.pow_nonzero; lia].
        destruct E1 as [E1|E1]; [|pose proof (Z.pow_pos_nonneg 2 (Z.max (Zdigits2 mx + ex - 24) (3 - 128 - 24) - ex)); lia].
        assert (Zdigits2 mx <= Z.max (Zdigits2 mx + ex - 24) (3 - 128 - 24) - ex)
          by (apply Zdigits2_le; lia).
        lia.
      + lia. }
  assert (HB : Zdigits2 m1 <= Zdigits2 m1' <= Zdigits2 m1 + 1).
  { split; [apply Zdigits2_mono; lia|].
    etransitivity; [apply (Zdigits2_mono m1' (m1 + 1)); lia|].
    apply Zdigits2_succ; lia. }
  assert (Hm1' : 0 <= m1') by lia.
  pose proof (shr_fexp_spec m1' e1 loc_Exact Hm1') as H2. cbv zeta in H2.
  destruct (shr_fexp F32.prec F32.emax m1' e1 loc_Exact) as [mrs2 e2].
  set (n2 := fexp F32.prec F32.emax (Zdigits2 m1' + e1) - e1) in H2.
  set (m2 := shr_m mrs2) in *.
  assert (HC : 0 <= m2 /\ (0 < m2 -> Zdigits2 m2 + e2 = Zdigits2 m1' + e1 /\ 0 < m1') /\
               e2 <= Z.max e1 (Z.max (Zdigits2 m1' + e1 - 24) (-149))).
  { unfold n2, fexp, emin, F32.prec, F32.emax in *.
    destruct (Z_le_gt_dec (Z.max (Zdigits2 m1' + e1 - 24) (3 - 128 - 24) - e1) 0) as [Hn|Hn].
    - destruct (proj1 H2 Hn) as [E1 E2]. fold m2 in E1. rewrite E1, E2.
      split; [lia|]. split; [|lia]. intros; lia.
    - destruct (proj2 H2 ltac:(lia)) as [E1 E2]. fold m2 in E1.
      split; [|split].
      + rewrite E1. apply Z.div_pos; [lia | apply Z.pow_pos_nonneg; lia].
      + intros Hpos. rewrite E1 in Hpos |- *. rewrite E2.
        assert (0 < m1').
        { apply div_pos_inv in Hpos; [|lia|apply Z.pow_pos_nonneg; lia].
          pose proof (Z.pow_pos_nonneg 2 (Z.max (Zdigits2 m1' + e1 - 24) (3 - 128 - 24) - e1)).
          lia. }
        split; [|assumption].
        rewrite Zdigits2_shift; [lia|assumption|lia|assumption].
      + lia. }
  destruct HA as (HA1 & HA2 & HA3). destruct HC as (HC0 & HC1 & HC2).
  assert (Hmag : 0 < m2 ->
            Zdigits2 mx + ex <= Zdigits2 m2 + e2 <= Z.max (Zdigits2 mx + ex + 1) (-148)).
  { intros Hpos. destruct (HC1 Hpos) as [-> Hm1'pos].
    destruct (Z.eq_dec m1 0) as [Hz|Hnz].
    - assert (m1' = 1) by lia. pose proof (HA2 Hz).
      replace (Zdigits2 m1') with 1 by (replace m1' with 1 by lia; reflexivity). lia.
    - rewrite <- (HA1 ltac:(lia)). lia. }
  destruct m2 as [|p|p] eqn:Em2.
  - reflexivity.
  - destruct (Z.leb_spec e2 (F32.emax - F32.prec)) as [Hle|Hgt].
    + split; [reflexivity|]. apply (Hmag ltac:(lia)).
    + split; [reflexivity|]. unfold F32.emax, F32.prec in Hgt.
      destruct (Z.eq_dec m1 0) as [Hz|Hnz].
      * pose proof (HA2 Hz). assert (Zdigits2 m1' <= 1).
        { apply Zdigits2_le; [simpl; lia|lia]. }
        lia.
      * pose proof (HA1 ltac:(lia)). lia.
  - lia.
Qed.

(** *** Multiplication and division *)

Lemma mul_magnitude (a b : Z) (x y : float) :
  below_pow2 a x -> below_pow2 b y ->
  below_pow2 (Z.max (a + b + 1) (-148)) (F32.mul x y).
Proof.
  destruct x as [sx|sx| |sx mx ex], y as [sy|sy| |sy my ey];
    try exact (fun _ _ => I).
  intros [-> Ha] [-> Hb]. unfold F32.mul, SFmul.
  pose proof (binary_round_aux_magnitude (xorb false false)
                (Zpos (mx * my)) (ex + ey) loc_Exact ltac:(lia)) as H.
  destruct (binary_round_aux _ _ _ _ _ _) as [s|s| |s m e]; try exact I.
  destruct H as [-> [_ H]]. split; [reflexivity|].
  pose proof (Zdigits2_mul (Zpos mx) (Zpos my) ltac:(lia) ltac:(lia)) as Hm.
  rewrite <- Pos2Z.inj_mul in Hm. cbn [Zdigits2] in *. lia.
Qed.

Lemma shiftl_pow2 (m s : Z) : 0 <= s -> Z.shiftl m s = m * 2 ^ s.
Proof. intros. apply Z.shiftl_mul_pow2. assumption. Qed.

(** The quotient mantissa of [SFdiv_core_binary]: not negative, and of
    magnitude at most one above the difference of the magnitudes. *)
Lemma div_core_magnitude (m1 m2 : positive) (e1 e2 : Z) :
  let '(q, e', _) :=
    SFdiv_core_binary F32.prec F32.emax (Zpos m1) e1 (Zpos m2) e2 in
  let X := (Zpos (digits2_pos m1) + e1) - (Zpos (digits2_pos m2) + e2) in
  0 <= q /\ Zdigits2 q + e' <= Z.max (X + 1) (-149) /\
  e' <= Z.max (X - 24) (-149).
Proof.
  unfold SFdiv_core_binary. cbn [Zdigits2].
  set (d1 := Zpos (digits2_pos m1)). set (d2 := Zpos (digits2_pos m2)).
  set (e' := Z.min (fexp F32.prec F32.emax (d1 + e1 - (d2 + e2))) (e1 - e2)).
  set (s := e1 - e2 - e').
  assert (Hs : 0 <= s) by (unfold s, e'; lia).
  set (m' := match s with Zpos _ => Z.shiftl (Zpos m1) s | 0 => Zpos m1 | Zneg _ => 0 end).
  assert (Hm' : m' = Zpos m1 * 2 ^ s).
  { unfold m'. destruct s as [|p|p] eqn:Es; [lia| |lia].
    apply shiftl_pow2. lia. }
  pose proof (Z.div_eucl_eq m' (Zpos m2) ltac:(lia)) as Heq.
  pose proof (Z.mod_pos_bound m' (Zpos m2) ltac:(lia)) as Hmod.
  unfold Z.modulo in Hmod.
  destruct (Z.div_eucl m' (Zpos m2)) as [q r]. cbv zeta.
  pose proof (digits2_pos_bounds m1) as [_ H1]. fold d1 in H1.
  pose proof (digits2_pos_bounds m2) as [H2 _]. fold d2 in H2.
  assert (Hd1 : 0 < d1) by (unfold d1; lia).
  assert (Hd2 : 0 < d2) by (unfold d2; lia).
  assert (Hps : 0 < 2 ^ s) by (apply Z.pow_pos_nonneg; lia).
  assert (Hq0 : 0 <= q) by nia.
  assert (He' : e' <= Z.max (d1 + e1 - (d2 + e2) - 24) (-149)).
  { unfold e', fexp, emin, F32.prec, F32.emax. lia. }
  split; [assumption|]. split; [|assumption].
  destruct (Z.eq_dec q 0) as [->|Hq]; [change (Zdigits2 0) with 0; lia|].
  (* q * 2^(d2-1) <= q * m2 <= m' < 2^(d1+s) *)
  assert (Hlt : q * 2 ^ (d2 - 1) < 2 ^ (d1 + s)).
  { rewrite (Z.pow_add_r 2 d1 s) by lia. nia. }
  assert (Hdq : Zdigits2 q <= d1 + s - d2 + 1).
  { destruct (Z_le_gt_dec (d2 - 1) (d1 + s)) as [Hle|Hgt].
    - apply Zdigits2_le; [|lia]. split; [lia|].
      replace (d1 + s) with ((d1 + s - d2 + 1) + (d2 - 1)) in Hlt by lia.
      rewrite Z.pow_add_r in Hlt by lia.
      assert (0 < 2 ^ (d2 - 1)) by (apply Z.pow_pos_nonneg; lia). nia.
    - assert (2 ^ (d1 + s) <= 2 ^ (d2 - 1)) by (apply Z.pow_le_mono_r; lia).
      nia. }
  unfold s in Hdq. lia.
Qed.

Lemma div_finite_magnitude (mx my : positive) (ex ey : Z) :
  let X := (Zpos (digits2_pos mx) + ex) - (Zpos (digits2_pos my) + ey) in
  match F32.div (S754_finite false mx ex) (S754_finite false my ey) with
  | S754_finite s m e =>
      s = false /\ Zpos (digits2_pos m) + e <= Z.max (X + 2) (-148)
  | S754_zero s => s = false
  | S754_infinity _ => 126 < X
  | S754_nan => False
  end.
Proof.
  cbv zeta. unfold F32.div, SFdiv.
  pose proof (div_core_magnitude mx my ex ey) as H.
  destruct (SFdiv_core_binary _ _ _ _ _ _) as [[q e'] l]. cbv zeta in H.
  destruct H as (Hq & Hd & He).
  pose proof (binary_round_aux_magnitude (xorb false false) q e' l Hq) as Hr.
  destruct (binary_round_aux _ _ _ _ _ _) as [s|s| |s m e].
  - exact Hr.
  - destruct Hr as [_ Hr]. lia.
  - exact Hr.
  - destruct Hr as [-> [_ Hr]]. split; [reflexivity | lia].
Qed.

Lemma div_magnitude (a b : Z) (x y : float) :
  below_pow2 a x -> atleast_pow2 b y ->
  below_pow2 (Z.max (a - b + 2) (-148)) (F32.div x y).
Proof.
  destruct x as [sx|sx| |sx mx ex], y as [sy|sy| |sy my ey];
    try exact (fun _ _ => I).
  intros [-> Ha] [-> Hb].
  pose proof (div_finite_magnitude mx my ex ey) as H. cbv zeta in H.
  destruct (F32.div _ _) as [s|s| |s m e]; try exact I.
  destruct H as [-> H]. split; [reflexivity | lia].
Qed.

(** *** Conversion from integers *)

Lemma iter_xO_pow2 (m d : positive) :
  Zpos (Pos.iter xO m d) = Zpos m * 2 ^ Zpos d.
Proof.
  induction d as [|d IH] using Pos.peano_ind.
  - cbn [Pos.iter]. rewrite Pos2Z.inj_xO. change (2 ^ 1) with 2. lia.
  - rewrite Pos.iter_succ, Pos2Z.inj_xO, IH, Pos2Z.inj_succ.
    rewrite Z.pow_succ_r by lia. lia.
Qed.

Lemma digits2_pos_shift (m d : positive) :
  Zpos (digits2_pos (Pos.iter xO m d)) = Zpos (digits2_pos m) + Zpos d.
Proof.
  induction d as [|d IH] using Pos.peano_ind.
  - cbn [Pos.iter digits2_pos]. lia.
  - rewrite Pos.iter_succ. cbn [digits2_pos]. lia.
Qed.

(** The mantissa and exponent [binary_round] starts from: the same value,
    hence the same magnitude. *)
Lemma shl_align_magnitude (m : positive) (e e' : Z) :
  let '(mz, ez) := shl_align m e e' in
  Zpos (digits2_pos mz) + ez = Zpos (digits2_pos m) + e /\
  Zpos mz * 2 ^ (ez - Z.min e e') = Zpos m * 2 ^ (e - Z.min e e') /\
  ez = Z.min e e'.
Proof.
  unfold shl_align. destruct (e' - e) as [|d|d] eqn:Ed.
  - replace (Z.min e e') with e by lia. auto.
  - replace (Z.min e e') with e by lia. auto.
  - replace (Z.min e e') with e' by lia.
    rewrite digits2_pos_shift, iter_xO_pow2.
    replace (e' - e') with 0 by lia. replace (e - e') with (Zpos d) by lia.
    split; [lia|]. split; [simpl; lia | reflexivity].
Qed.

Lemma of_Z_magnitude (n : Z) :
  0 <= n ->
  below_pow2 (Zdigits2 n + 1) (F32.of_Z n) /\
  atleast_pow2 (Zdigits2 n) (F32.of_Z n) /\
  is_nan (F32.of_Z n) = false.
Proof.
  intros Hn. destruct n as [|p|p]; [simpl; auto| |lia].
  unfold F32.of_Z, binary_normalize, binary_round.
  pose proof (shl_align_magnitude p 0
                (fexp F32.prec F32.emax (Zpos (digits2_pos p) + 0))) as H.
  destruct (shl_align _ _ _) as [mz ez]. destruct H as (Hmag & _ & _).
  pose proof (binary_round_aux_magnitude false (Zpos mz) ez loc_Exact
                ltac:(lia)) as Hr.
  cbn [Zdigits2] in *.
  destruct (binary_round_aux _ _ _ _ _ _) as [s|s| |s m e];
    cbn [below_pow2 atleast_pow2 is_nan]; try tauto.
  destruct Hr as [-> Hr]. repeat split; lia.
Qed.

(** Rounding changes nothing when no bit has to go. *)
Lemma binary_round_aux_noshift (s : bool) (m : positive) (e : Z) :
  fexp F32.prec F32.emax (Zpos (digits2_pos m) + e) <= e ->
  e <= 104 ->
  binary_round_aux F32.prec F32.emax s (Zpos m) e loc_Exact =
  S754_finite s m e.
Proof.
  intros Hf He. unfold binary_round_aux.
  assert (Hshr : shr_fexp F32.prec F32.emax (Zpos m) e loc_Exact =
                 ({| shr_m := Zpos m; shr_r := false; shr_s := false |}, e)).
  { unfold shr_fexp, shr. cbn [Zdigits2 shr_record_of_loc].
    destruct (fexp F32.prec F32.emax (Zpos (digits2_pos m) + e) - e)
      eqn:E; [reflexivity|lia|reflexivity]. }
  rewrite Hshr. cbn [shr_m loc_of_shr_record round_nearest_even].
  rewrite Hshr. cbn [shr_m].
  destruct (Z.leb_spec e (F32.emax - F32.prec)) as [_|Hgt]; [reflexivity|].
  unfold F32.emax, F32.prec in Hgt. lia.
Qed.

(** An integer below [2^24] converts exactly. *)
Lemma of_Z_exact (p : positive) :
  Zpos p < 2 ^ 24 ->
  exists m e,
    F32.of_Z (Zpos p) = S754_finite false m e /\
    e = Zpos (digits2_pos p) - 24 /\
    Zpos m = Zpos p * 2 ^ (24 - Zpos (digits2_pos p)) /\
    Zpos (digits2_pos m) = 24.
Proof.
  intros Hp.
  assert (Hd : Zpos (digits2_pos p) <= 24)
    by (apply (Zdigits2_le (Zpos p) 24); lia).
  unfold F32.of_Z, binary_normalize, binary_round.
  pose proof (shl_align_magnitude p 0
                (fexp F32.prec F32.emax (Zpos (digits2_pos p) + 0))) as H.
  destruct (shl_align _ _ _) as [mz ez]. destruct H as (Hmag & Hval & Hez).
  unfold fexp, emin, F32.prec, F32.emax in *.
  assert (Eez : ez = Zpos (digits2_pos p) - 24) by lia.
  rewrite binary_round_aux_noshift.
  - exists mz, ez. split; [reflexivity|]. split; [assumption|].
    split; [|lia].
    replace (ez - Z.min 0 (Z.max (Zpos (digits2_pos p) + 0 - 24) (3 - 128 - 24)))
      with 0 in Hval by lia.
    replace (0 - Z.min 0 (Z.max (Zpos (digits2_pos p) + 0 - 24) (3 - 128 - 24)))
      with (24 - Zpos (digits2_pos p)) in Hval by lia.
    lia.
  - unfold fexp, emin, F32.prec, F32.emax. lia.
  - lia.
Qed.

Lemma of_Z_small_magnitude (n k : Z) :
  0 <= n < 2 ^ k -> 0 <= k <= 24 -> below_pow2 k (F32.of_Z n).
Proof.
  intros [Hn Hk] Hk'. destruct n as [|p|p]; [exact I| |lia].
  assert (Hp : Zpos p < 2 ^ 24).
  { assert (2 ^ k <= 2 ^ 24) by (apply Z.pow_le_mono_r; lia). lia. }
  destruct (of_Z_exact p Hp) as (m & e & -> & -> & _ & Hd).
  split; [reflexivity|]. rewrite Hd.
  pose proof (Zdigits2_le (Zpos p) k ltac:(lia) ltac:(lia)) as H.
  cbn [Zdigits2] in H. lia.
Qed.

(** *** Conversion to integers *)

Lemma trunc_below (k : Z) (x : float) :
  0 <= k -> below_pow2 k x -> 0 <= F32.trunc x < 2 ^ k.
Proof.
  intros Hk. assert (Hpk : 0 < 2 ^ k) by (apply Z.pow_pos_nonneg; lia).
  destruct x as [s|s| |s m e]; cbn [below_pow2 F32.trunc]; try lia.
  intros [-> Hmag]. cbn [cond_Zopp].
  pose proof (digits2_pos_bounds m) as [_ Hm].
  set (d := Zpos (digits2_pos m)) in *.
  assert (Hd : 0 < d) by (unfold d; lia).
  destruct (Z.leb_spec 0 e) as [He|He].
  - assert (0 < 2 ^ e) by (apply Z.pow_pos_nonneg; lia).
    split; [nia|].
    assert (2 ^ d * 2 ^ e <= 2 ^ k).
    { rewrite <- Z.pow_add_r by lia. apply Z.pow_le_mono_r; lia. }
    nia.
  - assert (0 < 2 ^ (- e)) by (apply Z.pow_pos_nonneg; lia).
    split; [apply Z.div_pos; lia|].
    apply Z.div_lt_upper_bound; [lia|].
    assert (2 ^ d <= 2 ^ (- e) * 2 ^ k).
    { rewrite <- Z.pow_add_r by lia. apply Z.pow_le_mono_r; lia. }
    lia.
Qed.

Lemma to_u32_below (k : Z) (x : float) :
  0 <= k <= 32 -> below_pow2 k x ->
  F32.to_u32 x = F32.trunc x /\ 0 <= F32.trunc x < 2 ^ k.
Proof.
  intros Hk Hx. pose proof (trunc_below k x ltac:(lia) Hx) as H.
  split; [|assumption]. unfold F32.to_u32, u32, wrap_unsigned.
  apply Z.mod_small.
  assert (2 ^ k <= 2 ^ 32) by (apply Z.pow_le_mono_r; lia). lia.
Qed.

Lemma below_pow2_le (k k' : Z) (x : float) :
  below_pow2 k x -> k <= k' -> below_pow2 k' x.
Proof. destruct x; cbn [below_pow2]; intuition lia. Qed.

Lemma atleast_pow2_le (k k' : Z) (x : float) :
  atleast_pow2 k x -> k' <= k -> atleast_pow2 k' x.
Proof. destruct x; cbn [atleast_pow2]; intuition lia. Qed.

(** ** The length of the profile *)

(** The ramp length before the clamp fits 31 bits, so that doubling it
    does not wrap. *)
Lemma rampSteps_raw_below (tgtDelayUs rampMs' : Z) :
  0 <= tgtDelayUs -> 0 <= rampMs' < 2 ^ 16 ->
  below_pow2 31
    (F32.max F32.one
       (F32.mul
          (F32.mul (F32.div F32.f1e6 (F32.of_Z tgtDelayUs))
             (F32.div (F32.of_Z rampMs') F32.f1000))
          F32.half)).
Proof.
  intros Ht Hr.
  assert (H1 : below_pow2 21 (F32.div F32.f1e6 (F32.of_Z tgtDelayUs))).
  { apply (div_magnitude 20 1); [split; [reflexivity | simpl; lia]|].
    destruct (of_Z_magnitude tgtDelayUs Ht) as (_ & Hlo & _).
    destruct (Z.eq_dec tgtDelayUs 0) as [->|Hne]; [exact I|].
    apply (atleast_pow2_le _ _ _ Hlo).
    apply (Zdigits2_ge tgtDelayUs 0); simpl; lia. }
  assert (H2 : below_pow2 8 (F32.div (F32.of_Z rampMs') F32.f1000)).
  { apply (div_magnitude 16 10); [|split; [reflexivity | simpl; lia]].
    apply of_Z_small_magnitude; lia. }
  pose proof (mul_magnitude _ _ _ _ H1 H2) as H3.
  assert (H0 : below_pow2 0 F32.half) by (split; [reflexivity | simpl; lia]).
  pose proof (mul_magnitude _ _ _ _ H3 H0) as H4.
  unfold F32.max. destruct (F32.gtb _ _).
  - split; [reflexivity | simpl; lia].
  - apply (below_pow2_le _ _ _ H4). lia.
Qed.

Lemma rampStepsFor_bound (totalSteps tgtDelayUs rampMs' : Z) :
  0 <= totalSteps -> 0 <= tgtDelayUs -> 0 <= rampMs' < 2 ^ 16 ->
  0 <= 2 * rampStepsFor totalSteps tgtDelayUs rampMs' <= totalSteps.
Proof.
  intros Hn Ht Hr. unfold rampStepsFor.
  destruct (to_u32_below 31 _ ltac:(lia) (rampSteps_raw_below _ _ Ht Hr))
    as [-> Hb].
  set (rs := F32.trunc _) in *.
  assert (E : u32 (rs * 2) = rs * 2).
  { unfold u32, wrap_unsigned. apply Z.mod_small.
    change (2 ^ 31) with 2147483648 in Hb.
    change (2 ^ 32) with 4294967296. lia. }
  rewrite E. destruct (Z.gtb_spec (rs * 2) totalSteps).
  - pose proof (Z.mul_div_le totalSteps 2 ltac:(lia)).
    assert (0 <= totalSteps / 2) by (apply Z.div_pos; lia). lia.
  - lia.
Qed.

(** C3. With no abort request set or to come, the pulses of a move are
    exactly those of [profile_delays], one per delay, and there are
    [totalSteps] of them, for every step count and target delay of 32 bits
    and every ramp time of 16 bits; in the trapezoidal branch twice the
    ramp length is at most [totalSteps], so the cruise segment has
    [totalSteps - 2 * rampSteps >= 0] steps. *)
Theorem profile_has_totalSteps_pulses (int_bits pulPin : Z)
    (totalSteps tgtDelayUs rampMs' : Z) (w : world) :
  quiet w ->
  0 <= totalSteps < 2 ^ 32 ->
  0 <= tgtDelayUs < 2 ^ 32 ->
  0 <= rampMs' < 2 ^ 16 ->
  log (run_profile int_bits pulPin totalSteps tgtDelayUs rampMs' w) =
    log w ++ polled_pulses pulPin
               (profile_delays int_bits totalSteps tgtDelayUs rampMs') /\
  Z.of_nat (length (profile_delays int_bits totalSteps tgtDelayUs rampMs'))
    = totalSteps /\
  ((rampMs' =? 0) || (totalSteps <? 10) = false ->
   0 <= 2 * rampStepsFor totalSteps tgtDelayUs rampMs' <= totalSteps).
Proof.
  intros Hq Hn Ht Hr.
  pose proof (rampStepsFor_bound totalSteps tgtDelayUs rampMs'
                ltac:(lia) ltac:(lia) Hr) as Hb.
  split; [|split; [|intros _; exact Hb]].
  - unfold run_profile, profile_delays.
    destruct ((rampMs' =? 0) || (totalSteps <? 10)).
    + apply pulse_loop_quiet. assumption.
    + cbv zeta.
      match goal with |- context [pulse_loop ?n 0 ?f pulPin w] =>
        destruct (pulse_loop_quiet n 0 f pulPin w Hq) as [H1 Q1];
        set (w1 := pulse_loop n 0 f pulPin w) in * end.
      match goal with |- context [pulse_loop ?n 0 ?f pulPin w1] =>
        destruct (pulse_loop_quiet n 0 f pulPin w1 Q1) as [H2 Q2];
        set (w2 := pulse_loop n 0 f pulPin w1) in * end.
      match goal with |- context [pulse_loop ?n 0 ?f pulPin w2] =>
        destruct (pulse_loop_quiet n 0 f pulPin w2 Q2) as [H3 _] end.
      rewrite H3, H2, H1, !polled_pulses_app, <- !app_assoc. reflexivity.
  - unfold profile_delays.
    destruct ((rampMs' =? 0) || (totalSteps <? 10)).
    + rewrite delays_from_length. lia.
    + cbv zeta. rewrite !length_app, !delays_from_length.
      set (rs := rampStepsFor totalSteps tgtDelayUs rampMs') in *.
      assert (E : u32 (totalSteps - rs - rs) = totalSteps - rs - rs).
      { unfold u32, wrap_unsigned. apply Z.mod_small. lia. }
      rewrite E. lia.
Qed.

Lemma profile_has_totalSteps_pulses_witness :
  quiet booted /\
  Z.of_nat (length (profile_delays 16 400 1250 200)) = 400 /\
  0 <= 2 * rampStepsFor 400 1250 200 <= 400.
Proof.
  assert (Hq : quiet booted) by (split; [reflexivity | constructor]).
  split; [exact Hq|].
  destruct (profile_has_totalSteps_pulses 16 2 400 1250 200 booted Hq
              ltac:(lia) ltac:(lia) ltac:(lia)) as (_ & Hlen & Hramp).
  split; [exact Hlen | apply Hramp; reflexivity].
Defined.

(** ** The step delay for a speed *)

Lemma pow2_split (a b : Z) : 0 <= a -> 0 <= b -> 2 ^ (a + b) = 2 ^ a * 2 ^ b.
Proof. intros. apply Z.pow_add_r; assumption. Qed.

(** A number that is not below 1 is plus infinity or a positive finite
    number of magnitude at least 1. *)
Lemma not_below_one (x : float) :
  is_nan x = false -> F32.ltb x F32.one = false ->
  x = S754_infinity false \/
  exists m e, x = S754_finite false m e /\ 1 <= Zpos (digits2_pos m) + e.
Proof.
  destruct x as [s|[]| |[] m e]; intros Hnan H;
    try discriminate Hnan; try (vm_compute in H; discriminate H).
  - now left.
  - exfalso. unfold F32.ltb, F32.compare, F32.one in H.
    cbn [F32.scaled F32.exponent cond_Zopp] in H.
    set (e0 := Z.min e (-23)) in *.
    assert (0 < 2 ^ (e - e0)) by (apply Z.pow_pos_nonneg; lia).
    assert (0 < 2 ^ (-23 - e0)) by (apply Z.pow_pos_nonneg; lia).
    destruct (Z.compare_spec (- (Zpos m * 2 ^ (e - e0)))
                (8388608 * 2 ^ (-23 - e0))); try discriminate; nia.
  - right. exists m, e. split; [reflexivity|].
    unfold F32.ltb, F32.compare, F32.one in H.
    cbn [F32.scaled F32.exponent cond_Zopp] in H.
    set (e0 := Z.min e (-23)) in *.
    pose proof (digits2_pos_bounds m) as [_ Hm].
    set (d := Zpos (digits2_pos m)) in *.
    assert (Hd : 0 < d) by (unfold d; lia).
    destruct (Z_le_gt_dec 1 (d + e)) as [|Hlt]; [assumption|exfalso].
    (* m * 2^(e - e0) < 2^(d + e - e0) <= 2^(-e0) = 2^23 * 2^(-23 - e0) *)
    assert (H1 : Zpos m * 2 ^ (e - e0) < 2 ^ d * 2 ^ (e - e0)).
    { apply Z.mul_lt_mono_pos_r; [apply Z.pow_pos_nonneg; lia | lia]. }
    rewrite <- pow2_split in H1 by lia.
    assert (H2 : 2 ^ (d + (e - e0)) <= 2 ^ (23 + (-23 - e0)))
      by (apply Z.pow_le_mono_r; lia).
    rewrite (pow2_split 23 (-23 - e0)) in H2 by lia.
    change (2 ^ 23) with 8388608 in H2.
    destruct (Z.compare_spec (Zpos m * 2 ^ (e - e0))
                (8388608 * 2 ^ (-23 - e0))); try discriminate; lia.
Qed.

(** The clamp at 2.0 before the conversion is a clamp at 2 after it. *)
Lemma clamp_two_then_convert (x : float) :
  finite_below_pow2 32 x ->
  F32.to_u32 (if F32.ltb x F32.two then F32.two else x) =
  Z.max 2 (F32.trunc x).
Proof.
  destruct x as [s|s| |s m e]; cbn [finite_below_pow2]; try contradiction.
  - intros ->. reflexivity.
  - intros [-> Hmag].
    destruct (to_u32_below 32 (S754_finite false m e) ltac:(lia)
                (conj eq_refl Hmag)) as [Eu Hb].
    unfold F32.ltb, F32.compare, F32.two.
    cbn [F32.scaled F32.exponent cond_Zopp].
    set (e0 := Z.min e (-22)).
    assert (Hp1 : 0 < 2 ^ (e - e0)) by (apply Z.pow_pos_nonneg; lia).
    assert (Hp2 : 0 < 2 ^ (-22 - e0)) by (apply Z.pow_pos_nonneg; lia).
    assert (Hkey : Zpos m * 2 ^ (e - e0) < 8388608 * 2 ^ (-22 - e0) <->
                   F32.trunc (S754_finite false m e) < 2).
    { cbn [F32.trunc cond_Zopp].
      destruct (Z.leb_spec 0 e) as [He|He].
      - replace e0 with (-22) by lia.
        replace (e - -22) with (e + 22) by lia.
        rewrite pow2_split by lia. change (2 ^ 22) with 4194304.
        change (2 ^ (-22 - -22)) with 1. lia.
      - assert (Hpe : 0 < 2 ^ (- e)) by (apply Z.pow_pos_nonneg; lia).
        assert (Hdiv : Zpos m / 2 ^ (- e) < 2 <-> Zpos m < 2 * 2 ^ (- e)).
        { split; intros Hlt.
          - pose proof (Z.mul_succ_div_gt (Zpos m) (2 ^ (- e)) Hpe). nia.
          - apply Z.div_lt_upper_bound; lia. }
        rewrite Hdiv.
        destruct (Z_le_gt_dec (-22) e) as [Hge|Hlt].
        + replace e0 with (-22) by lia.
          change (2 ^ (-22 - -22)) with 1.
          assert (E : 2 ^ (e - -22) * 2 ^ (- e) = 4194304).
          { rewrite <- pow2_split by lia.
            replace (e - -22 + - e) with 22 by lia. reflexivity. }
          nia.
        + replace e0 with e by lia.
          replace (e - e) with 0 by lia. change (2 ^ 0) with 1.
          assert (E : 8388608 * 2 ^ (-22 - e) = 2 * 2 ^ (- e)).
          { replace (- e) with (22 + (-22 - e)) by lia.
            rewrite pow2_split by lia. change (2 ^ 22) with 4194304. lia. }
          lia. }
    destruct (Z.compare_spec (Zpos m * 2 ^ (e - e0))
                (8388608 * 2 ^ (-22 - e0))) as [E|E|E].
    + rewrite Eu. lia.
    + change (F32.to_u32 (S754_finite false 8388608 (-22))) with 2. lia.
    + rewrite Eu. lia.
Qed.

Lemma mul_not_nan (s : bool) (m : positive) (e : Z) (y : float) :
  is_nan y = false -> is_nan (F32.mul (S754_finite s m e) y) = false.
Proof.
  destruct y as [sy|sy| |sy my ey]; try discriminate; intros _;
    try reflexivity.
  unfold F32.mul, SFmul.
  pose proof (binary_round_aux_magnitude (xorb s sy) (Zpos (m * my))
                (e + ey) loc_Exact ltac:(lia)) as H.
  destruct (binary_round_aux _ _ _ _ _ _); [reflexivity..|contradiction|reflexivity].
Qed.

Lemma div_by_finite_not_nan (x : float) (s : bool) (m : positive) (e : Z) :
  is_nan x = false -> is_nan (F32.div x (S754_finite s m e)) = false.
Proof.
  destruct x as [sx|sx| |sx mx ex]; try discriminate; intros _;
    try reflexivity.
  unfold F32.div, SFdiv.
  pose proof (div_core_magnitude mx m ex e) as H.
  destruct (SFdiv_core_binary _ _ _ _ _ _) as [[q e'] l].
  destruct H as (Hq & _).
  pose proof (binary_round_aux_magnitude (xorb sx s) q e' l Hq) as Hr.
  destruct (binary_round_aux _ _ _ _ _ _); [reflexivity..|contradiction|reflexivity].
Qed.

(** The period in microseconds, before the clamp at 2.0: a finite number
    that is zero or positive and below [2^21]. *)
Lemma period_is_small (y : float) :
  is_nan y = false ->
  finite_below_pow2 21
    (F32.div F32.f1e6 (if F32.ltb y F32.one then F32.one else y)).
Proof.
  intros Hnan.
  assert (Hone : finite_below_pow2 21 (F32.div F32.f1e6 F32.one))
    by (vm_compute; split; [reflexivity | discriminate]).
  destruct (F32.ltb y F32.one) eqn:Hlt; [exact Hone|].
  destruct (not_below_one y Hnan Hlt) as [->|(m & e & -> & Hmag)].
  - reflexivity.
  - pose proof (div_finite_magnitude 16000000 m (-4) e) as H.
    cbv zeta in H. change (Zpos (digits2_pos 16000000)) with 24 in H.
    unfold F32.f1e6. clear Hone.
    destruct (F32.div (S754_finite false 16000000 (-4)) (S754_finite false m e))
      as [s|s| |s m' e']; cbn [finite_below_pow2].
    + exact H.
    + lia.
    + exact H.
    + destruct H as [-> H]. split; [reflexivity | lia].
Qed.

(** C7, as stated, fails: at 7 degrees per second on an axis with 1600
    steps per revolution the period is 1e6 / 31.11 = 32142.86 microseconds;
    the sketch returns 32142, the nearest integer is 32143.  (At the 90
    degrees per second of the specification's own scenario it returns 2499
    where rounding gives 2500.) *)
Lemma delay_rounding_counterexample :
  dpsToDelayUs (F32.of_Z 7) 1 booted = 32142 /\
  delayMicrosForSpeed_spec (stepsPerRev_at booted 1) (F32.of_Z 7) = 32143 /\
  dpsToDelayUs (F32.of_Z 7) 1 booted <>
    delayMicrosForSpeed_spec (stepsPerRev_at booted 1) (F32.of_Z 7) /\
  dpsToDelayUs (F32.of_Z 90) 1 booted = 2499 /\
  delayMicrosForSpeed_spec (stepsPerRev_at booted 1) (F32.of_Z 90) = 2500.
Proof. vm_compute. repeat split; try reflexivity. discriminate. Qed.

(** C7, amended. For every finite speed and every axis, [dpsToDelayUs]
    returns the integer part (not the nearest integer) of the
    single-precision quotient 1e6 / stepsPerSecond, and 2 when that is
    less, where stepsPerSecond is the larger of 1 and dps * (steps per
    revolution / 360), and a dps of 0 or less counts as 1; the result is at
    least 2 and below [2^21]. *)
Theorem delay_is_truncated_period (dps : float) (m : Z) (w : world) :
  F32.is_finite dps = true ->
  dpsToDelayUs dps m w = delayMicrosForSpeed_trunc (stepsPerRev_at w m) dps /\
  2 <= dpsToDelayUs dps m w < 2 ^ 21.
Proof.
  intros Hfin. unfold dpsToDelayUs, delayMicrosForSpeed_trunc, F32.max, F32.gtb.
  set (dps' := if F32.leb dps F32.zero then F32.one else dps).
  set (spd := F32.div (F32.of_Z (stepsPerRev_at w m)) F32.f360).
  set (sps := F32.mul dps' spd).
  assert (Hspd : is_nan spd = false).
  { unfold spd, F32.f360. apply div_by_finite_not_nan.
    unfold F32.of_Z, binary_normalize, binary_round.
    destruct (stepsPerRev_at w m) as [|p|p]; [reflexivity| |].
    - destruct (shl_align _ _ _) as [mz ez].
      pose proof (binary_round_aux_magnitude false (Zpos mz) ez loc_Exact
                    ltac:(lia)) as H.
      destruct (binary_round_aux _ _ _ _ _ _); [reflexivity..|contradiction|reflexivity].
    - destruct (shl_align _ _ _) as [mz ez].
      pose proof (binary_round_aux_magnitude true (Zpos mz) ez loc_Exact
                    ltac:(lia)) as H.
      destruct (binary_round_aux _ _ _ _ _ _); [reflexivity..|contradiction|reflexivity]. }
  assert (Hsps : is_nan sps = false).
  { unfold sps, dps'. destruct (F32.leb dps F32.zero) eqn:Hle.
    - now apply mul_not_nan.
    - destruct dps as [s|s| |s md ed]; try discriminate Hfin.
      + vm_compute in Hle. discriminate Hle.
      + now apply mul_not_nan. }
  pose proof (period_is_small sps Hsps) as Hq.
  set (q := F32.div F32.f1e6 (if F32.ltb sps F32.one then F32.one else sps)) in *.
  assert (Hq32 : finite_below_pow2 32 q).
  { destruct q; cbn [finite_below_pow2] in *; intuition lia. }
  rewrite (clamp_two_then_convert q Hq32).
  split; [reflexivity|].
  assert (Hb : below_pow2 21 q).
  { destruct q; cbn [finite_below_pow2 below_pow2] in *; tauto. }
  pose proof (trunc_below 21 q ltac:(lia) Hb). lia.
Qed.

Lemma delay_is_truncated_period_witness :
  F32.is_finite (F32.of_Z 7) = true /\
  dpsToDelayUs (F32.of_Z 7) 1 booted =
    delayMicrosForSpeed_trunc (stepsPerRev_at booted 1) (F32.of_Z 7) /\
  2 <= dpsToDelayUs (F32.of_Z 7) 1 booted < 2 ^ 21.
Proof.
  split; [reflexivity|].
  apply delay_is_truncated_period. reflexivity.
Defined.

(** ** The start delay of a ramp *)

Lemma Zdigits2_mul_pow2 (a j : Z) :
  0 < a -> 0 <= j -> Zdigits2 (a * 2 ^ j) = Zdigits2 a + j.
Proof.
  intros Ha Hj.
  assert (Hp : 0 < 2 ^ j) by (apply Z.pow_pos_nonneg; lia).
  destruct (Zdigits2_bounds a Ha) as [Hlo Hhi].
  pose proof (Zdigits2_nonneg a).
  assert (Hd : 1 <= Zdigits2 a).
  { apply (Zdigits2_ge a 0); simpl; lia. }
  apply Z.le_antisymm.
  - apply Zdigits2_le; [|lia]. rewrite pow2_split by lia. nia.
  - replace (Zdigits2 a + j) with ((Zdigits2 a - 1 + j) + 1) by lia.
    apply Zdigits2_ge; [|lia]. rewrite pow2_split by lia. nia.
Qed.

(** Shifting out bits that are all zero leaves no trace in the rounding
    flags. *)
Lemma shr_1_exact (k : Z) :
  0 <= k ->
  shr_1 {| shr_m := k * 2; shr_r := false; shr_s := false |} =
  {| shr_m := k; shr_r := false; shr_s := false |}.
Proof.
  intros Hk. destruct k as [|p|p]; [reflexivity| |lia].
  replace (Zpos p * 2) with (Zpos p~0) by lia. reflexivity.
Qed.

Lemma shr_iter_exact (p : positive) (k : Z) :
  0 <= k ->
  SpecFloat.iter_pos shr_1 p
    {| shr_m := k * 2 ^ Zpos p; shr_r := false; shr_s := false |} =
  {| shr_m := k; shr_r := false; shr_s := false |}.
Proof.
  revert k. induction p as [p IH|p IH|]; intros k Hk;
    cbn [SpecFloat.iter_pos].
  - assert (Hp : 0 < 2 ^ Zpos p) by (apply Z.pow_pos_nonneg; lia).
    rewrite pow2_xI.
    replace (k * (2 * (2 ^ Zpos p * 2 ^ Zpos p)))
      with (k * 2 ^ Zpos p * 2 ^ Zpos p * 2) by lia.
    rewrite shr_1_exact by nia. rewrite IH by nia. now apply IH.
  - assert (Hp : 0 < 2 ^ Zpos p) by (apply Z.pow_pos_nonneg; lia).
    rewrite pow2_xO.
    replace (k * (2 ^ Zpos p * 2 ^ Zpos p))
      with (k * 2 ^ Zpos p * 2 ^ Zpos p) by lia.
    rewrite IH by nia. now apply IH.
  - change (2 ^ 1) with 2. now apply shr_1_exact.
Qed.

(** Rounding is exact when the bits to drop are all zero. *)
Lemma binary_round_aux_exact (s : bool) (k : positive) (n ex : Z) :
  0 < n ->
  fexp F32.prec F32.emax (Zpos (digits2_pos k) + n + ex) = ex + n ->
  ex + n <= 104 ->
  binary_round_aux F32.prec F32.emax s (Zpos k * 2 ^ n) ex loc_Exact =
  S754_finite s k (ex + n).
Proof.
  intros Hn Hf He. unfold binary_round_aux.
  assert (Hd : Zdigits2 (Zpos k * 2 ^ n) = Zpos (digits2_pos k) + n)
    by (apply (Zdigits2_mul_pow2 (Zpos k) n); lia).
  assert (H1 : shr_fexp F32.prec F32.emax (Zpos k * 2 ^ n) ex loc_Exact =
               ({| shr_m := Zpos k; shr_r := false; shr_s := false |}, ex + n)).
  { unfold shr_fexp. rewrite Hd, Hf.
    replace (ex + n - ex) with n by lia. unfold shr.
    destruct n as [|p|p]; [lia| |lia].
    cbn [shr_record_of_loc]. rewrite shr_iter_exact by lia. reflexivity. }
  rewrite H1. cbn [shr_m loc_of_shr_record round_nearest_even].
  assert (H2 : shr_fexp F32.prec F32.emax (Zpos k) (ex + n) loc_Exact =
               ({| shr_m := Zpos k; shr_r := false; shr_s := false |}, ex + n)).
  { unfold shr_fexp. cbn [Zdigits2].
    replace (Zpos (digits2_pos k) + (ex + n))
      with (Zpos (digits2_pos k) + n + ex) by lia.
    rewrite Hf. replace (ex + n - (ex + n)) with 0 by lia. reflexivity. }
  rewrite H2. cbn [shr_m].
  destruct (Z.leb_spec (ex + n) (F32.emax - F32.prec)) as [_|Hgt];
    [reflexivity|]. unfold F32.emax, F32.prec in Hgt. lia.
Qed.

(** One and a half times an integer below [2^22], in single precision, is
    exact: its integer part is [3 * t / 2]. *)
Lemma mul_one_and_half_trunc (t : Z) :
  0 <= t < 2 ^ 22 ->
  F32.trunc (F32.mul (F32.of_Z t) F32.one_and_half) = 3 * t / 2.
Proof.
  intros [Ht0 Ht]. destruct t as [|p|p]; [reflexivity| |lia].
  change (2 ^ 22) with 4194304 in Ht.
  destruct (of_Z_exact p ltac:(change (2 ^ 24) with 16777216; lia))
    as (M & E & -> & HE & HM & HdM).
  set (dt := Zpos (digits2_pos p)) in *.
  set (D3 := Zdigits2 (3 * Zpos p)).
  assert (HD3 : dt <= D3 <= 24).
  { split.
    - apply (Zdigits2_mono (Zpos p) (3 * Zpos p)). lia.
    - apply Zdigits2_le; [change (2 ^ 24) with 16777216|]; lia. }
  assert (Hdt : 1 <= dt) by (unfold dt; lia).
  set (k := 3 * Zpos p * 2 ^ (24 - D3)).
  set (n := D3 - dt + 22).
  assert (Hpk : 0 < 2 ^ (24 - D3)) by (apply Z.pow_pos_nonneg; lia).
  assert (Hk : 0 < k) by (unfold k; nia).
  assert (Hdk : Zdigits2 k = 24).
  { unfold k. rewrite Zdigits2_mul_pow2 by lia. fold D3. lia. }
  assert (Hmant : Zpos (M * 12582912) = k * 2 ^ n).
  { rewrite Pos2Z.inj_mul, HM. unfold k, n.
    assert (Hpw : 2 ^ (24 - D3) * 2 ^ (D3 - dt + 22) =
                  2 ^ (24 - dt) * 4194304).
    { rewrite <- pow2_split by lia.
      replace (24 - D3 + (D3 - dt + 22)) with ((24 - dt) + 22) by lia.
      now rewrite pow2_split by lia. }
    rewrite <- (Z.mul_assoc (3 * Zpos p)), Hpw. ring. }
  unfold F32.mul, SFmul, F32.one_and_half. cbn [xorb].
  rewrite Hmant.
  destruct k as [|pk|pk] eqn:Ek; try lia.
  cbn [Zdigits2] in Hdk.
  rewrite binary_round_aux_exact.
  - cbn [F32.trunc cond_Zopp].
    destruct (Z.leb_spec 0 (E + -23 + n)) as [Hge|Hlt]; [unfold n in Hge; lia|].
    replace (- (E + -23 + n)) with (1 + (24 - D3)) by (unfold n; lia).
    rewrite pow2_split by lia. change (2 ^ 1) with 2.
    rewrite <- Ek. unfold k. clear Ek.
    rewrite Z.div_mul_cancel_r by lia. reflexivity.
  - unfold n; lia.
  - rewrite Hdk. unfold fexp, emin, F32.prec, F32.emax, n. lia.
  - unfold n. lia.
Qed.

(** *** The first step of a ramp *)

(** Rounding does not lose a mantissa whose magnitude is above the smallest
    subnormal number. *)
Lemma binary_round_aux_nonzero (sx : bool) (mx ex : Z) (lx : location) :
  0 < mx -> -149 < Zdigits2 mx + ex ->
  match binary_round_aux F32.prec F32.emax sx mx ex lx with
  | S754_finite s _ _ | S754_infinity s => s = sx
  | _ => False
  end.
Proof.
  intros Hmx HD.
  pose proof (binary_round_aux_magnitude sx mx ex lx ltac:(lia)) as Hmag.
  unfold binary_round_aux in *.
  pose proof (shr_fexp_spec mx ex lx ltac:(lia)) as H1. cbv zeta in H1.
  destruct (shr_fexp F32.prec F32.emax mx ex lx) as [mrs1 e1].
  set (m1 := shr_m mrs1) in *.
  pose proof (round_nearest_even_bounds m1 (loc_of_shr_record mrs1)) as Hr.
  set (m1' := round_nearest_even m1 (loc_of_shr_record mrs1)) in *.
  pose proof (Zdigits2_bounds mx Hmx) as [Hlo Hhi].
  pose proof (Zdigits2_nonneg mx) as Hd0.
  assert (H1' : 0 < m1 /\ -149 <= e1).
  { unfold fexp, emin, F32.prec, F32.emax in H1.
    destruct (Z_le_gt_dec (Z.max (Zdigits2 mx + ex - 24) (3 - 128 - 24) - ex) 0)
      as [Hn|Hn].
    - destruct (proj1 H1 Hn) as [E1 E2]. fold m1 in E1. lia.
    - destruct (proj2 H1 ltac:(lia)) as [E1 E2]. fold m1 in E1.
      split; [|lia]. rewrite E1.
      set (n := Z.max (Zdigits2 mx + ex - 24) (3 - 128 - 24) - ex) in *.
      assert (Hn' : n <= Zdigits2 mx - 1) by lia.
      assert (2 ^ n <= 2 ^ (Zdigits2 mx - 1)) by (apply Z.pow_le_mono_r; lia).
      assert (0 < 2 ^ n) by (apply Z.pow_pos_nonneg; lia).
      apply Z.div_str_pos. lia. }
  destruct H1' as [Hm1 He1].
  assert (Hm1' : 0 < m1') by lia.
  pose proof (shr_fexp_spec m1' e1 loc_Exact ltac:(lia)) as H2. cbv zeta in H2.
  destruct (shr_fexp F32.prec F32.emax m1' e1 loc_Exact) as [mrs2 e2].
  set (m2 := shr_m mrs2) in *.
  pose proof (Zdigits2_bounds m1' Hm1') as [Hlo' Hhi'].
  assert (Hm2 : 0 < m2).
  { unfold fexp, emin, F32.prec, F32.emax in H2.
    destruct (Z_le_gt_dec (Z.max (Zdigits2 m1' + e1 - 24) (3 - 128 - 24) - e1) 0)
      as [Hn|Hn].
    - destruct (proj1 H2 Hn) as [E1 E2]. fold m2 in E1. lia.
    - destruct (proj2 H2 ltac:(lia)) as [E1 E2]. fold m2 in E1.
      rewrite E1.
      set (n := Z.max (Zdigits2 m1' + e1 - 24) (3 - 128 - 24) - e1) in *.
      assert (Hn' : n <= Zdigits2 m1' - 1) by lia.
      assert (2 ^ n <= 2 ^ (Zdigits2 m1' - 1)) by (apply Z.pow_le_mono_r; lia).
      assert (0 < 2 ^ n) by (apply Z.pow_pos_nonneg; lia).
      apply Z.div_str_pos. lia. }
  destruct m2 as [|p|p]; try lia.
  destruct (e2 <=? F32.emax - F32.prec); [apply Hmag | apply Hmag].
Qed.

(** A positive integer converts to a positive number or overflows to plus
    infinity; it never becomes zero. *)
Lemma of_Z_pos_shape (p : positive) :
  match F32.of_Z (Zpos p) with
  | S754_finite s _ _ | S754_infinity s => s = false
  | _ => False
  end.
Proof.
  unfold F32.of_Z, binary_normalize, binary_round.
  pose proof (shl_align_magnitude p 0
                (fexp F32.prec F32.emax (Zpos (digits2_pos p) + 0))) as H.
  destruct (shl_align _ _ _) as [mz ez]. destruct H as (Hmag & _ & _).
  apply binary_round_aux_nonzero; [lia|]. cbn [Zdigits2]. lia.
Qed.

(** An integer of at most 64 bits converts to a finite number. *)
Lemma of_Z_finite (z : Z) :
  - 2 ^ 64 <= z <= 2 ^ 64 -> F32.is_finite (F32.of_Z z) = true.
Proof.
  intros Hz. destruct z as [|p|p]; [reflexivity| |];
    unfold F32.of_Z, binary_normalize, binary_round;
    pose proof (shl_align_magnitude p 0
                  (fexp F32.prec F32.emax (Zpos (digits2_pos p) + 0))) as H;
    destruct (shl_align _ _ _) as [mz ez]; destruct H as (Hmag & _ & Hez);
    assert (Hd : Zpos (digits2_pos p) <= 65)
      by (apply (Zdigits2_le (Zpos p) 65);
          [change (2 ^ 65) with (2 * 2 ^ 64); lia | lia]);
    match goal with |- context [binary_round_aux _ _ ?s _ _ _] =>
      pose proof (binary_round_aux_magnitude s (Zpos mz) ez loc_Exact
                    ltac:(lia)) as Hr end;
    cbn [Zdigits2] in Hr;
    destruct (binary_round_aux _ _ _ _ _ _) as [s|s| |s m e];
    try reflexivity; try contradiction;
    destruct Hr as [_ Hr]; lia.
Qed.

Lemma to_int_range (int_bits z : Z) :
  1 <= int_bits <= 64 -> - 2 ^ 64 <= to_int int_bits z <= 2 ^ 64.
Proof.
  intros Hb. unfold to_int, wrap_signed.
  assert (Hp : 0 < 2 ^ int_bits) by (apply Z.pow_pos_nonneg; lia).
  pose proof (Z.mod_pos_bound z (2 ^ int_bits) Hp) as Hm.
  assert (2 ^ int_bits <= 2 ^ 64) by (apply Z.pow_le_mono_r; lia).
  destruct (z mod 2 ^ int_bits <? 2 ^ (int_bits - 1)); lia.
Qed.

(** Converting an integer below [2^24] to float and back gives it again. *)
Lemma to_u32_of_Z (n : Z) : 0 <= n < 2 ^ 24 -> F32.to_u32 (F32.of_Z n) = n.
Proof.
  intros [Hn0 Hn]. destruct n as [|p|p]; [reflexivity| |lia].
  destruct (of_Z_exact p Hn) as (m & e & -> & -> & Hm & Hd).
  pose proof (digits2_pos_bounds p) as [_ Hp].
  set (d := Zpos (digits2_pos p)) in *.
  assert (Hd24 : 0 < d <= 24).
  { split; [unfold d; lia|]. apply (Zdigits2_le (Zpos p) 24); lia. }
  unfold F32.to_u32, F32.trunc. cbn [cond_Zopp].
  assert (Hv : (if 0 <=? d - 24 then Zpos m * 2 ^ (d - 24)
                else Zpos m / 2 ^ (- (d - 24))) = Zpos p).
  { destruct (Z.leb_spec 0 (d - 24)) as [H|H].
    - replace (d - 24) with 0 by lia. replace (24 - d) with 0 in Hm by lia.
      change (2 ^ 0) with 1 in *. lia.
    - replace (- (d - 24)) with (24 - d) by lia. rewrite Hm.
      apply Z.div_mul. apply Z.pow_nonzero; lia. }
  rewrite Hv. unfold u32, wrap_unsigned. apply Z.mod_small.
  change (2 ^ 24) with 16777216 in Hn. change (2 ^ 32) with 4294967296. lia.
Qed.

(** At the first step of a ramp of two steps or more the interpolation
    parameter is 0. *)
Lemma ramp_t_first (rampSteps : Z) :
  2 <= rampSteps < 2 ^ 32 -> ramp_t rampSteps 0 = S754_zero false.
Proof.
  intros Hr. unfold ramp_t.
  destruct (Z.leb_spec rampSteps 1) as [?|_]; [lia|].
  assert (E : u32 (rampSteps - 1) = rampSteps - 1).
  { unfold u32, wrap_unsigned. apply Z.mod_small. lia. }
  rewrite E. destruct (rampSteps - 1) as [|p|p] eqn:Ep; try lia.
  pose proof (of_Z_pos_shape p) as H.
  destruct (F32.of_Z (Zpos p)) as [s|s| |s m e]; try contradiction;
    subst s; reflexivity.
Qed.

(** With the parameter 0 the interpolation gives its starting delay. *)
Lemma interpolate_at_zero (int_bits fromUs toUs : Z) :
  1 <= int_bits <= 64 -> 0 <= fromUs < 2 ^ 24 ->
  interpolate int_bits fromUs toUs (S754_zero false) = fromUs.
Proof.
  intros Hb Hf. unfold interpolate.
  set (diff := to_int int_bits (to_int int_bits toUs - to_int int_bits fromUs)).
  pose proof (of_Z_finite diff (to_int_range int_bits _ Hb)) as Hfin.
  assert (Hz : exists s, F32.mul (S754_zero false) (F32.of_Z diff) = S754_zero s).
  { destruct (F32.of_Z diff) as [s|s| |s m e]; try discriminate Hfin;
      eexists; reflexivity. }
  destruct Hz as [s ->].
  assert (Ha : F32.add (F32.of_Z fromUs) (S754_zero s) = F32.of_Z fromUs
               \/ fromUs = 0).
  { destruct fromUs as [|p|p]; [now right| |lia]. left.
    destruct (of_Z_exact p ltac:(lia)) as (m & e & -> & _). reflexivity. }
  destruct Ha as [-> | ->].
  - now apply to_u32_of_Z.
  - destruct s; reflexivity.
Qed.

Lemma startDelayFor_value (tgtDelayUs : Z) :
  0 <= tgtDelayUs < 2 ^ 21 ->
  startDelayFor tgtDelayUs = Z.max (tgtDelayUs + 2) (3 * tgtDelayUs / 2).
Proof.
  intros Ht. change (2 ^ 21) with 2097152 in Ht.
  unfold startDelayFor, F32.to_u32.
  rewrite mul_one_and_half_trunc by (change (2 ^ 22) with 4194304; lia).
  assert (H3 : 0 <= 3 * tgtDelayUs / 2 < 4294967296).
  { split; [apply Z.div_pos; lia|apply Z.div_lt_upper_bound; lia]. }
  unfold u32, wrap_unsigned. change (2 ^ 32) with 4294967296.
  rewrite !Z.mod_small by lia.
  destruct (Z.ltb_spec (3 * tgtDelayUs / 2) (tgtDelayUs + 2)); lia.
Qed.

(** An uninterrupted move emits the delays of [profile_delays]. *)
Lemma run_profile_quiet (int_bits pulPin totalSteps tgtDelayUs rampMs' : Z)
    (w : world) :
  quiet w ->
  log (run_profile int_bits pulPin totalSteps tgtDelayUs rampMs' w) =
    log w ++ polled_pulses pulPin
               (profile_delays int_bits totalSteps tgtDelayUs rampMs').
Proof.
  intros Hq. unfold run_profile, profile_delays.
  destruct ((rampMs' =? 0) || (totalSteps <? 10)).
  - apply pulse_loop_quiet. assumption.
  - cbv zeta.
    match goal with |- context [pulse_loop ?n 0 ?f pulPin w] =>
      destruct (pulse_loop_quiet n 0 f pulPin w Hq) as [H1 Q1];
      set (w1 := pulse_loop n 0 f pulPin w) in * end.
    match goal with |- context [pulse_loop ?n 0 ?f pulPin w1] =>
      destruct (pulse_loop_quiet n 0 f pulPin w1 Q1) as [H2 Q2];
      set (w2 := pulse_loop n 0 f pulPin w1) in * end.
    match goal with |- context [pulse_loop ?n 0 ?f pulPin w2] =>
      destruct (pulse_loop_quiet n 0 f pulPin w2 Q2) as [H3 _] end.
    rewrite H3, H2, H1, !polled_pulses_app, <- !app_assoc. reflexivity.
Qed.

(** C8, as stated, fails twice.  For a target delay of 5 microseconds the
    sketch computes a start delay of 7 (the integer part of 7.5, which the
    floor of target + 2 does not raise), where
    max(target + 2, round(target * 1.5)) is 8.  And the first step does not
    always have the start delay: with a ramp of one step (RAMP 1 at a target
    of 2499 microseconds) the interpolation parameter is fixed at 1 and the
    first step has the target delay 2499, not the start delay 3748. *)
Lemma start_delay_counterexample :
  (startDelayFor 5 = 7 /\ startDelayUs_spec 5 = 8 /\
   startDelayFor 5 <> startDelayUs_spec 5) /\
  (rampStepsFor 200 2499 1 = 1 /\
   head (profile_delays 16 200 2499 1) = Some 2499 /\
   startDelayFor 2499 = 3748 /\
   head (profile_delays 16 200 2499 1) <> Some (startDelayFor 2499)).
Proof. vm_compute. repeat split; try reflexivity; discriminate. Qed.

(** C8, amended. In the trapezoidal branch the start delay is the larger
    of [target + 2] and the integer part (not the nearest integer) of
    [target * 1.5], for every target delay below [2^21] (which covers what
    [dpsToDelayUs] returns); it is never less than 2 microseconds above the
    target.  When the ramp has two steps or more, the first step of an
    uninterrupted move has exactly this delay ([int] being 16 to 64 bits
    wide). *)
Theorem ramp_starts_at_truncated_start_delay (int_bits pulPin : Z)
    (totalSteps tgtDelayUs rampMs' : Z) (w : world) :
  16 <= int_bits <= 64 ->
  quiet w ->
  0 <= totalSteps < 2 ^ 32 ->
  0 <= tgtDelayUs < 2 ^ 21 ->
  0 <= rampMs' < 2 ^ 16 ->
  (rampMs' =? 0) || (totalSteps <? 10) = false ->
  startDelayFor tgtDelayUs = Z.max (tgtDelayUs + 2) (3 * tgtDelayUs / 2) /\
  tgtDelayUs + 2 <= startDelayFor tgtDelayUs /\
  (2 <= rampStepsFor totalSteps tgtDelayUs rampMs' ->
   exists rest,
     profile_delays int_bits totalSteps tgtDelayUs rampMs' =
       startDelayFor tgtDelayUs :: rest /\
     log (run_profile int_bits pulPin totalSteps tgtDelayUs rampMs' w) =
       log w ++ polled_pulses pulPin (startDelayFor tgtDelayUs :: rest)).
Proof.
  intros Hb Hq Hn Ht Hr Hbranch.
  pose proof (startDelayFor_value tgtDelayUs Ht) as E.
  split; [exact E|]. split; [rewrite E; lia|].
  intros Hrs.
  pose proof (rampStepsFor_bound totalSteps tgtDelayUs rampMs'
                ltac:(lia) ltac:(lia) Hr) as Hbound.
  assert (Hfirst : exists rest,
            profile_delays int_bits totalSteps tgtDelayUs rampMs' =
              startDelayFor tgtDelayUs :: rest).
  { unfold profile_delays. rewrite Hbranch. cbv zeta.
    set (rs := rampStepsFor totalSteps tgtDelayUs rampMs') in *.
    destruct (Z.to_nat rs) as [|k] eqn:Ek; [lia|].
    cbn [delays_from app]. eexists. f_equal.
    rewrite ramp_t_first by lia.
    apply interpolate_at_zero; [lia|].
    change (2 ^ 21) with 2097152 in Ht. change (2 ^ 24) with 16777216.
    rewrite E.
    assert (0 <= 3 * tgtDelayUs / 2 < 16777216).
    { split; [apply Z.div_pos; lia | apply Z.div_lt_upper_bound; lia]. }
    lia. }
  destruct Hfirst as [rest Hrest]. exists rest. split; [exact Hrest|].
  rewrite <- Hrest. now apply run_profile_quiet.
Qed.

Lemma ramp_starts_at_truncated_start_delay_witness :
  2 <= rampStepsFor 400 1250 200 /\
  startDelayFor 1250 = Z.max (1250 + 2) (3 * 1250 / 2) /\
  exists rest,
    profile_delays 16 400 1250 200 = startDelayFor 1250 :: rest /\
    log (run_profile 16 2 400 1250 200 booted) =
      log booted ++ polled_pulses 2 (startDelayFor 1250 :: rest).
Proof.
  assert (Hrs : 2 <= rampStepsFor 400 1250 200) by (vm_compute; discriminate).
  split; [exact Hrs|].
  destruct (ramp_starts_at_truncated_start_delay 16 2 400 1250 200 booted)
    as (H1 & _ & H3).
  - lia.
  - split; [reflexivity | constructor].
  - split; [lia | reflexivity].
  - split; [lia | reflexivity].
  - split; [lia | reflexivity].
  - reflexivity.
  - split; [exact H1 | exact (H3 Hrs)].
Defined.

(** * Further properties of the sketch *)

(** ** What a move leaves alone *)

Lemma settings_read_abortRequested (w : world) :
  settings (snd (read_abortRequested w)) = settings w /\
  movingMotor (snd (read_abortRequested w)) = movingMotor w /\
  inbuf (snd (read_abortRequested w)) = inbuf w /\
  pins (snd (read_abortRequested w)) = pins w.
Proof. repeat split; reflexivity. Qed.

Lemma settings_pulseOnce (pin d : Z) (w : world) :
  settings (pulseOnce pin d w) = settings w /\
  movingMotor (pulseOnce pin d w) = movingMotor w /\
  inbuf (pulseOnce pin d w) = inbuf w.
Proof. repeat split; reflexivity. Qed.

Lemma pulse_loop_frame (rounds : nat) (i : Z) (f : Z -> Z) (pin : Z)
    (w : world) :
  settings (pulse_loop rounds i f pin w) = settings w /\
  movingMotor (pulse_loop rounds i f pin w) = movingMotor w /\
  inbuf (pulse_loop rounds i f pin w) = inbuf w.
Proof.
  revert i w. induction rounds as [|rounds IH]; intros i w; [auto|].
  rewrite pulse_loop_S.
  destruct (settings_read_abortRequested w) as (E1 & E2 & E3 & _).
  destruct (read_abortRequested w) as [seen w1]. cbn [snd] in *.
  destruct seen; [auto|].
  destruct (IH (i + 1) (pulseOnce pin (f i) w1)) as (F1 & F2 & F3).
  destruct (settings_pulseOnce pin (f i) w1) as (G1 & G2 & G3).
  repeat split; congruence.
Qed.

Lemma run_profile_frame (int_bits pin totalSteps tgtDelayUs rampMs' : Z)
    (w : world) :
  settings (run_profile int_bits pin totalSteps tgtDelayUs rampMs' w)
    = settings w /\
  movingMotor (run_profile int_bits pin totalSteps tgtDelayUs rampMs' w)
    = movingMotor w /\
  inbuf (run_profile int_bits pin totalSteps tgtDelayUs rampMs' w) = inbuf w.
Proof.
  unfold run_profile. destruct ((rampMs' =? 0) || (totalSteps <? 10)).
  - apply pulse_loop_frame.
  - cbv zeta.
    repeat match goal with
    | |- context [pulse_loop ?n 0 ?f pin ?w0] =>
        lazymatch w0 with
        | pulse_loop _ _ _ _ _ => fail
        | _ => destruct (pulse_loop_frame n 0 f pin w0) as (? & ? & ?);
               generalize dependent (pulse_loop n 0 f pin w0); intros
        end
    end.
    repeat split; congruence.
Qed.

Lemma moveWithProfile_frame (int_bits m : Z) (deg dps : float) (rampMs' : Z)
    (w : world) :
  settings (moveWithProfile int_bits m deg dps rampMs' w) = settings w /\
  inbuf (moveWithProfile int_bits m deg dps rampMs' w) = inbuf w /\
  (movingMotor w = 0 ->
   movingMotor (moveWithProfile int_bits m deg dps rampMs' w) = 0).
Proof.
  unfold moveWithProfile. destruct (degToSteps m deg w =? 0); [auto|].
  cbv zeta.
  match goal with |- context [run_profile int_bits ?pin ?n ?t ?r ?w0] =>
    destruct (run_profile_frame int_bits pin n t r w0) as (E1 & _ & E3);
    generalize dependent (run_profile int_bits pin n t r w0); intros w1 E1 E3
  end.
  split; [|split]; [| |reflexivity].
  - change (settings w1 = settings w). exact E1.
  - change (inbuf w1 = inbuf w). exact E3.
Qed.

(** X1. A move, completed or aborted, changes none of the stored settings
    (steps per revolution, active motor, angle, speed, pause, repeats,
    ramp). *)
Theorem move_changes_no_setting (int_bits m : Z) (deg dps : float)
    (rampMs' : Z) (w : world) :
  settings (moveWithProfile int_bits m deg dps rampMs' w) = settings w.
Proof. apply moveWithProfile_frame. Qed.

(** ** Step counts and directions *)

Lemma abs_opp (x : float) : F32.abs (F32.opp x) = F32.abs x.
Proof. destruct x; reflexivity. Qed.

(** The step count of an angle does not depend on its sign. *)
Lemma degToSteps_opp (m : Z) (deg : float) (w : world) :
  degToSteps m (F32.opp deg) w = degToSteps m deg w.
Proof. unfold degToSteps. now rewrite abs_opp. Qed.

Lemma wrap_signed_32_range (z : Z) : - 2 ^ 31 <= long32 z < 2 ^ 31.
Proof.
  unfold long32, wrap_signed.
  pose proof (Z.mod_pos_bound z (2 ^ 32) ltac:(reflexivity)) as H.
  change (2 ^ (32 - 1)) with (2 ^ 31).
  change (2 ^ 32) with (2 * 2 ^ 31) in *.
  destruct (Z.ltb_spec (z mod (2 * 2 ^ 31)) (2 ^ 31)); lia.
Qed.

(** X2. A step count is never negative and fits 31 bits: [lroundf] gives a
    32-bit [long] and negative values are replaced by 0. *)
Theorem degToSteps_range (m : Z) (deg : float) (w : world) :
  0 <= degToSteps m deg w < 2 ^ 31.
Proof.
  unfold degToSteps, F32.lroundf.
  set (r := F32.round_away _).
  pose proof (wrap_signed_32_range r) as H.
  unfold u32, wrap_unsigned.
  change (2 ^ 31) with 2147483648 in *. change (2 ^ 32) with 4294967296.
  destruct (Z.ltb_spec (long32 r) 0); rewrite Z.mod_small; lia.
Qed.

(** A move of zero steps is what an angle that is not a number gives. *)
Lemma degToSteps_nan (m : Z) (w : world) : degToSteps m S754_nan w = 0.
Proof.
  unfold degToSteps. cbn [F32.abs SFabs].
  replace (F32.mul S754_nan _) with (S754_nan : float); [reflexivity|].
  unfold F32.mul, SFmul. reflexivity.
Qed.

Lemma degToSteps_zero (m : Z) (s : bool) (w : world) :
  degToSteps m (S754_zero s) w = 0.
Proof.
  unfold degToSteps. cbn [F32.abs SFabs].
  destruct (F32.div _ _) as [sy|sy| |sy my ey]; reflexivity.
Qed.

Lemma degToSteps_infinity (m : Z) (s : bool) (w : world) :
  degToSteps m (S754_infinity s) w = 0.
Proof.
  unfold degToSteps. cbn [F32.abs SFabs].
  destruct (F32.div _ _) as [sy|sy| |sy my ey]; reflexivity.
Qed.

(** The direction of [fabs(angle)] is forward and that of its negation
    backward, whenever there are steps to make. *)
Lemma direction_of_abs (m : Z) (angle : float) (w : world) :
  degToSteps m (F32.abs angle) w <> 0 ->
  directionFor (F32.abs angle) = true /\
  directionFor (F32.opp (F32.abs angle)) = false.
Proof.
  intros Hsteps. split.
  - destruct angle as [s|s| |s mx ex]; cbn [F32.abs SFabs] in *.
    + reflexivity.
    + reflexivity.
    + now rewrite degToSteps_nan in Hsteps.
    + unfold directionFor, F32.geb, F32.leb, F32.compare, F32.zero.
      cbn [F32.scaled F32.exponent cond_Zopp].
      assert (0 < 2 ^ (ex - Z.min 0 ex)) by (apply Z.pow_pos_nonneg; lia).
      destruct (Z.compare_spec 0 (Zpos mx * 2 ^ (ex - Z.min 0 ex)));
        try reflexivity; nia.
  - destruct angle as [s|s| |s mx ex]; cbn [F32.abs SFabs F32.opp SFopp negb] in *.
    + now rewrite degToSteps_zero in Hsteps.
    + reflexivity.
    + now rewrite degToSteps_nan in Hsteps.
    + unfold directionFor, F32.geb, F32.leb, F32.compare, F32.zero.
      cbn [F32.scaled F32.exponent cond_Zopp].
      assert (0 < 2 ^ (ex - Z.min 0 ex)) by (apply Z.pow_pos_nonneg; lia).
      destruct (Z.compare_spec 0 (- (Zpos mx * 2 ^ (ex - Z.min 0 ex))));
        try reflexivity; nia.
Qed.

(** A move that starts writes the direction pin first. *)
Lemma moveWithProfile_first_event (int_bits m : Z) (deg dps : float)
    (rampMs' : Z) (w : world) :
  degToSteps m deg w <> 0 ->
  exists rest,
    log (moveWithProfile int_bits m deg dps rampMs' w) =
      log w ++ EvDigitalWrite (dir (MOT_at m))
                 (if directionFor deg then HIGH else LOW) :: rest.
Proof.
  intros Hsteps. unfold moveWithProfile.
  destruct (Z.eqb_spec (degToSteps m deg w) 0) as [E|_]; [contradiction|].
  match goal with |- context [run_profile int_bits ?pin ?n ?t ?r ?w0] =>
    destruct (run_profile_shape int_bits pin n t r w0) as (ds & j & H) end.
  eexists. unfold_board. rewrite H. unfold_board.
  rewrite <- !app_assoc. cbn [app]. reflexivity.
Qed.

(** X3. [doForward] and [doBackward] pass [fabs(angle)] and its negation:
    whenever the stored angle gives steps to make, the forward move begins
    by driving the direction pin HIGH and the backward move (from the same
    state) by driving it LOW, whatever the sign of the stored angle, and
    both are moves of the same number of steps. *)
Theorem forward_is_high_backward_is_low (int_bits m : Z) (w : world) :
  degToSteps m (F32.abs (setAngleDeg w)) w <> 0 ->
  (exists rest,
     log (doForward int_bits m w) =
       log w ++ EvDigitalWrite (dir (MOT_at m)) HIGH :: rest) /\
  (exists rest,
     log (doBackward int_bits m w) =
       log w ++ EvDigitalWrite (dir (MOT_at m)) LOW :: rest) /\
  degToSteps m (F32.opp (F32.abs (setAngleDeg w))) w =
    degToSteps m (F32.abs (setAngleDeg w)) w.
Proof.
  intros Hsteps.
  destruct (direction_of_abs m (setAngleDeg w) w Hsteps) as [Hf Hb].
  pose proof (degToSteps_opp m (F32.abs (setAngleDeg w)) w) as Ho.
  split; [|split; [|exact Ho]].
  - destruct (moveWithProfile_first_event int_bits m (F32.abs (setAngleDeg w))
                (setSpeedDPS w) (rampMs w) w Hsteps) as [rest H].
    rewrite Hf in H. exists rest. exact H.
  - destruct (moveWithProfile_first_event int_bits m
                (F32.opp (F32.abs (setAngleDeg w)))
                (setSpeedDPS w) (rampMs w) w ltac:(now rewrite Ho))
      as [rest H].
    rewrite Hb in H. exists rest. exact H.
Qed.

Lemma forward_is_high_backward_is_low_witness :
  degToSteps 1 (F32.abs (setAngleDeg (set_setAngleDeg (atof "-15") booted)))
    (set_setAngleDeg (atof "-15") booted) <> 0 /\
  (exists rest,
     log (doForward 16 1 (set_setAngleDeg (atof "-15") booted)) =
       log (set_setAngleDeg (atof "-15") booted)
         ++ EvDigitalWrite (dir (MOT_at 1)) HIGH :: rest) /\
  (exists rest,
     log (doBackward 16 1 (set_setAngleDeg (atof "-15") booted)) =
       log (set_setAngleDeg (atof "-15") booted)
         ++ EvDigitalWrite (dir (MOT_at 1)) LOW :: rest).
Proof.
  assert (H : degToSteps 1
                (F32.abs (setAngleDeg (set_setAngleDeg (atof "-15") booted)))
                (set_setAngleDeg (atof "-15") booted) <> 0)
    by (vm_compute; discriminate).
  split; [exact H|].
  destruct (forward_is_high_backward_is_low 16 1
              (set_setAngleDeg (atof "-15") booted) H) as (H1 & H2 & _).
  split; assumption.
Defined.

(** ** One pulse *)



(** ** The constant-speed profile *)

Lemma delays_from_constant (n : nat) (i d : Z) :
  delays_from n i (fun _ => d) = repeat d n.
Proof. revert i. induction n; intros i; simpl; [reflexivity | now rewrite IHn]. Qed.

(** X5. With ramping off ([rampMs = 0]) or fewer than 10 steps, every pulse
    of an uninterrupted move has the target delay. *)
Theorem short_or_unramped_move_is_constant (int_bits pulPin : Z)
    (totalSteps tgtDelayUs rampMs' : Z) (w : world) :
  quiet w ->
  rampMs' = 0 \/ totalSteps < 10 ->
  log (run_profile int_bits pulPin totalSteps tgtDelayUs rampMs' w) =
    log w ++ polled_pulses pulPin (repeat tgtDelayUs (Z.to_nat totalSteps)).
Proof.
  intros Hq Hc. unfold run_profile.
  assert (E : (rampMs' =? 0) || (totalSteps <? 10) = true).
  { destruct Hc as [->|Hc]; [reflexivity|].
    apply orb_true_iff. right. now apply Z.ltb_lt. }
  rewrite E. rewrite <- delays_from_constant with (i := 0).
  apply pulse_loop_quiet. assumption.
Qed.

Lemma short_or_unramped_move_is_constant_witness :
  log (run_profile 16 2 9 2499 100 booted) =
    log booted ++ polled_pulses 2 (repeat 2499 (Z.to_nat 9)).
Proof.
  apply short_or_unramped_move_is_constant.
  - split; [reflexivity | constructor].
  - right. lia.
Defined.

(** ** Setup and the input buffer *)


Lemma String_length_snoc (s : string) (c : ascii) :
  String.length (s ++ String c EmptyString) = S (String.length s).
Proof. induction s as [|a s IH]; simpl; [reflexivity | now rewrite IH]. Qed.

Lemma loop_byte_inbuf (int_bits : Z) (w : world) (c : ascii) :
  (String.length (inbuf w) <= 120)%nat ->
  (String.length (inbuf (loop_byte int_bits w c)) <= 120)%nat.
Proof.
  intros H. unfold loop_byte.
  destruct ((code c =? 10) || (code c =? 13)).
  - change (0 <= 120)%nat. lia.
  - destruct (Nat.ltb_spec (String.length (inbuf w)) 120) as [Hlt|_];
      [|exact H].
    change (String.length (inbuf w ++ String c EmptyString) <= 120)%nat.
    rewrite String_length_snoc. lia.
Qed.

(** X7. The input line never grows beyond 120 characters, whatever bytes
    arrive and whatever the commands among them do. *)
Theorem inbuf_never_exceeds_120 (int_bits : Z) (bytes : list ascii)
    (w : world) :
  (String.length (inbuf w) <= 120)%nat ->
  (String.length (inbuf (loop int_bits bytes w)) <= 120)%nat.
Proof.
  unfold loop. revert w.
  induction bytes as [|c bytes IH]; intros w H; [exact H|].
  cbn [foldl]. apply IH. now apply loop_byte_inbuf.
Qed.

Lemma inbuf_never_exceeds_120_witness :
  (String.length
     (inbuf (loop 16 (list_ascii_of_string "M 2") booted)) <= 120)%nat.
Proof.
  apply inbuf_never_exceeds_120. vm_compute. lia.
Defined.

(** ** The settings stay in range *)

Lemma settings_in_range_ext (w w' : world) :
  settings w' = settings w -> settings_in_range w -> settings_in_range w'.
Proof.
  unfold settings, settings_in_range. intros E H.
  injection E as -> -> _ -> -> -> ->. exact H.
Qed.

Lemma settings_emit (e : event) (w : world) : settings (emit e w) = settings w.
Proof. reflexivity. Qed.

Lemma settings_delay (ms : Z) (w : world) : settings (delay ms w) = settings w.
Proof. reflexivity. Qed.

Lemma settings_digitalWrite (pin : Z) (l : bool) (w : world) :
  settings (digitalWrite pin l w) = settings w.
Proof. reflexivity. Qed.

Lemma settings_printHelp (w : world) : settings (printHelp w) = settings w.
Proof.
  unfold printHelp. generalize help_lines. intros l. revert w.
  induction l as [|s l IH]; intros w; [reflexivity|].
  cbn [foldl]. now rewrite IH.
Qed.

Lemma settings_showState (w : world) : settings (showState w) = settings w.
Proof. reflexivity. Qed.

Lemma settings_status_line (i : Z) (w : world) :
  settings (status_line i w) = settings w.
Proof. reflexivity. Qed.

Lemma settings_enaOff_all (w : world) : settings (enaOff_all w) = settings w.
Proof. reflexivity. Qed.

Lemma settings_enaOn_all (w : world) : settings (enaOn_all w) = settings w.
Proof. reflexivity. Qed.

Lemma settings_doForward (int_bits m : Z) (w : world) :
  settings (doForward int_bits m w) = settings w.
Proof. apply moveWithProfile_frame. Qed.

Lemma settings_doBackward (int_bits m : Z) (w : world) :
  settings (doBackward int_bits m w) = settings w.
Proof. apply moveWithProfile_frame. Qed.

Lemma settings_q_loop (int_bits : Z) (rounds : nat) (i : Z) (w : world) :
  settings (q_loop int_bits rounds i w) = settings w.
Proof.
  revert i w. induction rounds as [|rounds IH]; intros i w; [reflexivity|].
  cbn [q_loop]. cbv zeta. rewrite IH.
  match goal with |- settings (if ?c then _ else _) = _ => destruct c end.
  - rewrite settings_delay, settings_doBackward, settings_delay.
    apply settings_doForward.
  - rewrite settings_doBackward, settings_delay. apply settings_doForward.
Qed.

Lemma settings_test_loop (int_bits : Z) (rounds : nat) (i m : Z)
    (deg dps : float) (rep pms : Z) (w : world) :
  settings (test_loop int_bits rounds i m deg dps rep pms w) = settings w.
Proof.
  revert i w. induction rounds as [|rounds IH]; intros i w; [reflexivity|].
  cbn [test_loop].
  destruct (settings_read_abortRequested w) as (E1 & _).
  destruct (read_abortRequested w) as [seen w1]. cbn [snd] in E1.
  destruct seen; [exact E1|].
  pose proof (proj1 (moveWithProfile_frame int_bits m (F32.abs deg) dps
                       (rampMs w1) w1)) as E2.
  set (w2 := moveWithProfile int_bits m (F32.abs deg) dps (rampMs w1) w1) in *.
  destruct (settings_read_abortRequested w2) as (E3 & _).
  destruct (read_abortRequested w2) as [seen2 w3]. cbn [snd] in E3.
  destruct seen2; [congruence|].
  cbv zeta. rewrite IH.
  match goal with |- settings (if ?c then _ else _) = _ => destruct c end;
    rewrite ?settings_delay, (proj1 (moveWithProfile_frame _ _ _ _ _ _)),
      ?settings_delay; congruence.
Qed.

Lemma in_1_5_range (m : Z) : in_1_5 m = true -> 1 <= m <= 5.
Proof. unfold in_1_5. intros H. apply andb_true_iff in H. lia. Qed.

Lemma array_set_in_range (l : list Z) (i v : Z) :
  length l = 5%nat -> Forall (fun s => 50 <= s <= 200000) l ->
  50 <= v <= 200000 ->
  length (array_set l i v) = 5%nat /\
  Forall (fun s => 50 <= s <= 200000) (array_set l i v).
Proof.
  intros Hl Hf Hv. unfold array_set. destruct (i <? 0); [auto|].
  split; [now rewrite length_insert | now apply Forall_insert].
Qed.

(** The goal [settings_in_range W], for a world [W] that a few setters
    build from [w], as its seven parts, those that [w] already gives
    closed. *)
Ltac in_range_parts H :=
  let H1 := fresh "H1" in let H2 := fresh "H2" in let H3 := fresh "H3" in
  let H4 := fresh "H4" in let H5 := fresh "H5" in let H6 := fresh "H6" in
  let H7 := fresh "H7" in
  pose proof H as (H1 & H2 & H3 & H4 & H5 & H6 & H7);
  refine (conj _ (conj _ (conj _ (conj _ (conj _ (conj _ _))))));
  first [exact H1 | exact H2 | exact H3 | exact H4 | exact H5 | exact H6
        | exact H7 | idtac].

Ltac frame_leaf w H :=
  first [ exact H
        | apply (settings_in_range_ext w); [reflexivity | exact H] ].

Lemma exec_command_in_range (int_bits : Z) (cmd rest : string) (w : world) :
  settings_in_range w ->
  settings_in_range (exec_command int_bits cmd rest w).
Proof.
  intros H. unfold exec_command.
  destruct (streq cmd "M").
  { destruct (strtok rest) as [[p|] r]; [|exact H].
    destruct (in_1_5 (atoi int_bits p)) eqn:Hm; [|exact H].
    apply in_1_5_range in Hm. cbv zeta. in_range_parts H. exact Hm. }
  destruct (streq cmd "ENA").
  { destruct (strtok rest) as [pm r1]. destruct (strtok r1) as [ps r2].
    assert (Hgen : forall (m : Z) (pstate : option string),
      settings_in_range
        match pstate with
        | None => w
        | Some st =>
            let turnOn := strcaseeq st "ON" in
            let turnOff := strcaseeq st "OFF" in
            if negb (turnOn || turnOff) then w
            else if in_1_5 m then
              if turnOn then
                let w := enaOn m w in
                let w := Serial_print (SStr "ENA ON M") w in
                Serial_println (SInt m) w
              else
                let w := enaOff m w in
                let w := Serial_print (SStr "ENA OFF M") w in
                Serial_println (SInt m) w
            else
              let w := if turnOn then enaOn_all w else enaOff_all w in
              Serial_println
                (SStr (if turnOn then "ENA: ON (tum motorlar)"
                       else "ENA: OFF (tum motorlar)")) w
        end).
    { intros m [st|]; [|exact H]. cbv zeta.
      destruct (negb _); [exact H|].
      destruct (in_1_5 m); destruct (strcaseeq st "ON"); frame_leaf w H. }
    destruct pm as [[|c t]|];
      [exact (Hgen 0 (Some EmptyString)) | | exact (Hgen 0 None)].
    destruct (isdigit c);
      [exact (Hgen (atoi int_bits (String c t)) ps)
      | exact (Hgen 0 (Some (String c t)))]. }
  destruct (streq cmd "STOP").
  { destruct (strtok rest) as [[pm|] r].
    - destruct (in_1_5 (atoi int_bits pm)); [|exact H].
      cbv zeta. destruct (movingMotor w =? atoi int_bits pm); frame_leaf w H.
    - frame_leaf w H. }
  destruct (streq cmd "STATUS"); [frame_leaf w H|].
  destruct (streq cmd "A").
  { destruct (strtok rest) as [[p|] r]; [|exact H].
    cbv zeta. in_range_parts H. }
  destruct (streq cmd "V").
  { destruct (strtok rest) as [[p|] r]; [|exact H].
    cbv zeta.
    change (setSpeedDPS (set_setSpeedDPS (atof p) w)) with (atof p).
    destruct (F32.leb (atof p) F32.zero) eqn:Hv; in_range_parts H.
    - reflexivity.
    - exact Hv. }
  destruct (streq cmd "S").
  { destruct (strtok rest) as [[p|] r]; [|exact H].
    cbv zeta.
    destruct ((50 <=? u32 (atol p)) && (u32 (atol p) <=? 200000)) eqn:Hs;
      [|exact H].
    apply andb_true_iff in Hs.
    pose proof H as (H1 & H2 & _).
    destruct (array_set_in_range (stepsPerRev w) (aktifMotor w - 1)
                (u32 (atol p)) H1 H2 ltac:(lia)) as [G1 G2].
    in_range_parts H; [exact G1 | exact G2]. }
  destruct (streq cmd "RAMP").
  { destruct (strtok rest) as [[p|] r]; [|exact H].
    cbv zeta. in_range_parts H.
    change (0 <= u16 (if (if atoi int_bits p <? 0 then 0 else atoi int_bits p)
                           >? 5000 then 5000
                      else if atoi int_bits p <? 0 then 0
                           else atoi int_bits p) <= 5000).
    unfold u16, wrap_unsigned. change (2 ^ 16) with 65536.
    destruct (Z.ltb_spec (atoi int_bits p) 0);
      match goal with |- context [?a >? ?b] =>
        destruct (Z.gtb_spec a b) end;
      rewrite Z.mod_small; lia. }
  destruct (streq cmd "PAUSE").
  { destruct (strtok rest) as [[p|] r]; [|exact H].
    cbv zeta. in_range_parts H.
    change (0 <= u16 (if atoi int_bits p <? 0 then 0 else atoi int_bits p)
            < 65536).
    unfold u16, wrap_unsigned. change (2 ^ 16) with 65536.
    apply Z.mod_pos_bound. lia. }
  destruct (streq cmd "REP").
  { destruct (strtok rest) as [[p|] r]; [|exact H].
    cbv zeta. in_range_parts H.
    change (1 <= u8 (if (if atoi int_bits p <? 1 then 1 else atoi int_bits p)
                          >? 200 then 200
                     else if atoi int_bits p <? 1 then 1
                          else atoi int_bits p) <= 200).
    unfold u8, wrap_unsigned. change (2 ^ 8) with 256.
    destruct (Z.ltb_spec (atoi int_bits p) 1);
      match goal with |- context [?a >? ?b] =>
        destruct (Z.gtb_spec a b) end;
      rewrite Z.mod_small; lia. }
  destruct (streq cmd "MOVE").
  { destruct (strtok rest) as [pm r1]. destruct (strtok r1) as [pd r2].
    destruct (strtok r2) as [pv r3].
    destruct pm as [pm|]; [|exact H]. destruct pd as [pd|]; [|exact H].
    destruct pv as [pv|]; [|exact H]. cbv zeta.
    destruct (in_1_5 (atoi int_bits pm)) eqn:Hm; [|exact H].
    destruct (F32.gtb (atof pv) F32.zero); [|exact H]. cbn [andb].
    apply in_1_5_range in Hm.
    eapply settings_in_range_ext; [apply moveWithProfile_frame|].
    in_range_parts H. exact Hm. }
  destruct (streq cmd "TEST").
  { destruct (strtok rest) as [pm r1]. destruct (strtok r1) as [pd r2].
    destruct (strtok r2) as [pv r3]. destruct (strtok r3) as [pr r4].
    destruct (strtok r4) as [pp r5].
    destruct pm as [pm|]; [|exact H]. destruct pd as [pd|]; [|exact H].
    destruct pv as [pv|]; [|exact H]. destruct pr as [pr|]; [|exact H].
    destruct pp as [pp|]; [|exact H]. cbv zeta.
    destruct (in_1_5 (atoi int_bits pm)) eqn:Hm; [|exact H].
    destruct (F32.gtb (atof pv) F32.zero); [|exact H].
    destruct (1 <=? atoi int_bits pr); [|exact H]. cbn [andb].
    apply in_1_5_range in Hm.
    eapply settings_in_range_ext; [apply settings_test_loop|].
    in_range_parts H. exact Hm. }
  frame_leaf w H.
Qed.

Lemma parseAndExec_in_range (int_bits : Z) (line : string) (w : world) :
  settings_in_range w -> settings_in_range (parseAndExec int_bits line w).
Proof.
  intros H. unfold parseAndExec.
  destruct (String.length (trim line) =? 0)%nat; [exact H|].
  unfold exec_line.
  destruct (streq _ "HELP" || streq _ "?").
  { apply (settings_in_range_ext w); [apply settings_printHelp | exact H]. }
  destruct (streq _ "SHOW").
  { apply (settings_in_range_ext w); [apply settings_showState | exact H]. }
  destruct (streq _ "G").
  { apply (settings_in_range_ext w); [apply settings_doForward | exact H]. }
  destruct (streq _ "ABORT"); [frame_leaf w H|].
  destruct (streq _ "Q").
  { apply (settings_in_range_ext w); [apply settings_q_loop | exact H]. }
  destruct (strtok _) as [[cmd|] rest]; [|exact H].
  now apply exec_command_in_range.
Qed.

(** X8. The ranges the setter commands enforce are an invariant of the
    console: whatever bytes arrive, the five step counts stay in
    50..200000, the selected motor in 1..5, the speed above 0 (or not a
    number), the pause below 65536, the repeat count in 1..200 and the ramp
    time at most 5000 ms, on every width of [int]. *)
Theorem loop_keeps_settings_in_range (int_bits : Z) (bytes : list ascii)
    (w : world) :
  settings_in_range w -> settings_in_range (loop int_bits bytes w).
Proof.
  unfold loop. revert w.
  induction bytes as [|c bytes IH]; intros w H; [exact H|].
  cbn [foldl]. apply IH. unfold loop_byte.
  destruct ((code c =? 10) || (code c =? 13)).
  - eapply settings_in_range_ext; [|apply (parseAndExec_in_range int_bits), H].
    reflexivity.
  - destruct (String.length (inbuf w) <? 120)%nat; frame_leaf w H.
Qed.

Lemma loop_keeps_settings_in_range_witness :
  settings_in_range booted /\
  settings_in_range
    (loop 16 (list_ascii_of_string "RAMP 99999") booted).
Proof.
  assert (H : settings_in_range booted).
  { unfold settings_in_range.
    split; [reflexivity|]. split; [repeat constructor; discriminate|].
    repeat split; try reflexivity; discriminate. }
  split; [exact H | apply loop_keeps_settings_in_range, H].
Defined.

(** ** Commands: from the line to the command word *)

Lemma one_word_command_false (u : string) :
  one_word_command u = false ->
  streq u "HELP" = false /\ streq u "?" = false /\ streq u "SHOW" = false /\
  streq u "G" = false /\ streq u "ABORT" = false /\ streq u "Q" = false.
Proof.
  unfold one_word_command, streq. cbn [existsb].
  intros H. repeat (apply orb_false_elim in H as [? H]).
  repeat split; assumption.
Qed.

(** A line that is one of the one-word commands up to letter case is its
    own first token. *)
Lemma one_word_command_is_first_token (line : string) :
  one_word_command (toUpperCase line) = true ->
  strtok (toCharArray 64 line) = (Some line, EmptyString).
Proof.
  unfold one_word_command. cbn [existsb]. intros H.
  repeat (apply orb_true_iff in H as [H|H]); try discriminate H;
    apply String.eqb_eq in H;
    (eapply one_word_line; [exact H | reflexivity | simpl; lia]).
Qed.

(** The tokenised branch runs whenever the first token is not, up to letter
    case, one of the one-word commands. *)
Lemma parseAndExec_word (int_bits : Z) (line cmd rest : string) (w : world) :
  strtok (toCharArray 64 (trim line)) = (Some cmd, rest) ->
  one_word_command (toUpperCase cmd) = false ->
  parseAndExec int_bits line w = exec_command int_bits cmd rest w.
Proof.
  intros Hcmd Hword. unfold parseAndExec.
  destruct (String.length (trim line) =? 0)%nat eqn:Hlen.
  { apply Nat.eqb_eq in Hlen.
    destruct (trim line); [discriminate Hcmd | discriminate Hlen]. }
  assert (Hu : one_word_command (toUpperCase (trim line)) = false).
  { destruct (one_word_command (toUpperCase (trim line))) eqn:E; [|reflexivity].
    rewrite (one_word_command_is_first_token _ E) in Hcmd.
    injection Hcmd as <- _. congruence. }
  apply one_word_command_false in Hu as (H1 & H2 & H3 & H4 & H5 & H6).
  unfold exec_line. rewrite H1, H2, H3, H4, H5, H6. cbn [orb]. now rewrite Hcmd.
Qed.

(** ** ABORT and STOP *)

Lemma exec_line_ABORT (int_bits : Z) (buf : string) (w : world) :
  exec_line int_bits "ABORT" buf w =
  Serial_println (SStr "ABORT: hareket durduruldu, ENA OFF")
    (set_movingMotor 0 (enaOff_all (set_abortRequested true w))).
Proof. reflexivity. Qed.

Lemma enaOff_all_frame (w : world) :
  pins (enaOff_all w) =
    <[48 := HIGH]> (<[13 := HIGH]> (<[10 := HIGH]> (<[7 := HIGH]>
      (<[4 := HIGH]> (pins w))))) /\
  log (enaOff_all w) =
    log w ++ [ EvDigitalWrite 4 HIGH; EvDigitalWrite 7 HIGH;
               EvDigitalWrite 10 HIGH; EvDigitalWrite 13 HIGH;
               EvDigitalWrite 48 HIGH ] /\
  abortRequested (enaOff_all w) = abortRequested w /\
  movingMotor (enaOff_all w) = movingMotor w /\
  inbuf (enaOff_all w) = inbuf w /\
  pending (enaOff_all w) = pending w.
Proof.
  split; [reflexivity|]. split; [|repeat split].
  change (log (enaOff_all w)) with
    (((((log w ++ [EvDigitalWrite 4 HIGH]) ++ [EvDigitalWrite 7 HIGH])
         ++ [EvDigitalWrite 10 HIGH]) ++ [EvDigitalWrite 13 HIGH])
       ++ [EvDigitalWrite 48 HIGH]).
  now rewrite <- !app_assoc.
Qed.

Lemma motor_cases (i : Z) :
  1 <= i <= 5 -> i = 1 \/ i = 2 \/ i = 3 \/ i = 4 \/ i = 5.
Proof. lia. Qed.

(** All five enable pins at one level. *)
Lemma all_enable_pins (level : bool) (p : gmap Z bool) (i : Z) :
  1 <= i <= 5 ->
  default LOW
    ((<[48 := level]> (<[13 := level]> (<[10 := level]> (<[7 := level]>
       (<[4 := level]> p))))) !! ena (MOT_at i)) = level.
Proof.
  intros Hi.
  destruct (motor_cases i Hi) as [-> | [-> | [-> | [-> | ->]]]];
    change (ena (MOT_at 1)) with 4; change (ena (MOT_at 2)) with 7;
    change (ena (MOT_at 3)) with 10; change (ena (MOT_at 4)) with 13;
    change (ena (MOT_at 5)) with 48;
    repeat (rewrite lookup_insert_ne by lia);
    now rewrite lookup_insert_eq.
Qed.

(** No other pin changes. *)
Lemma other_pins_kept (level : bool) (p : gmap Z bool) (pin : Z) :
  pin ∉ enable_pins ->
  (<[48 := level]> (<[13 := level]> (<[10 := level]> (<[7 := level]>
     (<[4 := level]> p))))) !! pin = p !! pin.
Proof.
  intros Hpin.
  assert (H : pin <> 4 /\ pin <> 7 /\ pin <> 10 /\ pin <> 13 /\ pin <> 48).
  { repeat split; intros ->; apply Hpin; vm_compute;
      repeat (first [apply list_elem_of_here | apply list_elem_of_further]). }
  destruct H as (? & ? & ? & ? & ?).
  now rewrite !lookup_insert_ne by congruence.
Qed.

(** X9. ABORT, in any letter case and with white space around it, sets
    the abort flag, clears [movingMotor], drives all five enable pins HIGH
    (drivers off), leaves every other pin and every setting as it was, and
    prints one line. *)
Theorem abort_stops_and_disables_everything (int_bits : Z) (line : string)
    (w : world) :
  toUpperCase (trim line) = "ABORT"%string ->
  abortRequested (parseAndExec int_bits line w) = true /\
  movingMotor (parseAndExec int_bits line w) = 0 /\
  (forall i, 1 <= i <= 5 ->
     digitalRead (ena (MOT_at i)) (parseAndExec int_bits line w) = HIGH) /\
  (forall pin, pin ∉ enable_pins ->
     digitalRead pin (parseAndExec int_bits line w) = digitalRead pin w) /\
  settings (parseAndExec int_bits line w) = settings w /\
  log (parseAndExec int_bits line w) =
    log w ++ [ EvDigitalWrite 4 HIGH; EvDigitalWrite 7 HIGH;
               EvDigitalWrite 10 HIGH; EvDigitalWrite 13 HIGH;
               EvDigitalWrite 48 HIGH;
               EvPrintln (SStr "ABORT: hareket durduruldu, ENA OFF") ].
Proof.
  intros Hu. unfold parseAndExec.
  assert (Hlen : String.length (trim line) = 5%nat).
  { rewrite <- toUpperCase_length, Hu. reflexivity. }
  rewrite Hlen, Hu. cbn [Nat.eqb]. rewrite exec_line_ABORT.
  destruct (enaOff_all_frame (set_abortRequested true w)) as (Hp & Hl & Ha & _).
  pose proof (settings_enaOff_all (set_abortRequested true w)) as Hs.
  revert Hp Hl Ha Hs.
  generalize (enaOff_all (set_abortRequested true w)). intros w1 Hp Hl Ha Hs.
  unfold digitalRead. unfold_board.
  split; [exact Ha|]. split; [reflexivity|].
  split; [|split; [|split]].
  - intros i Hi. rewrite Hp. now apply all_enable_pins.
  - intros pin Hpin. rewrite Hp. now rewrite other_pins_kept.
  - exact Hs.
  - rewrite Hl. now rewrite <- app_assoc.
Qed.

Lemma abort_stops_and_disables_everything_witness :
  abortRequested (parseAndExec 16 " abort " booted) = true /\
  digitalRead (ena (MOT_at 3)) (parseAndExec 16 " abort " booted) = HIGH.
Proof.
  destruct (abort_stops_and_disables_everything 16 " abort " booted)
    as (H1 & _ & H3 & _); [reflexivity|].
  split; [exact H1 | apply H3; lia].
Defined.

Lemma exec_command_STOP (int_bits : Z) (rest : string) (w : world) :
  exec_command int_bits "STOP" rest w =
    match strtok rest with
    | (Some pm, _) =>
        let m := atoi int_bits pm in
        if in_1_5 m then
          let w :=
            if movingMotor w =? m
            then set_movingMotor 0 (set_abortRequested true w) else w in
          let w := enaOff m w in
          let w := Serial_print (SStr "STOP: M") w in
          Serial_println (SInt m) w
        else w
    | (None, _) =>
        let w := set_abortRequested true w in
        let w := enaOff_all w in
        let w := set_movingMotor 0 w in
        Serial_println (SStr "STOP: tum motorlar") w
    end.
Proof. reflexivity. Qed.

(** X10. STOP without an argument leaves the sketch and the board in the
    state ABORT leaves them in; only the printed line differs. *)
Theorem stop_without_argument_is_abort (int_bits : Z)
    (line rest rest' abort : string) (w : world) :
  strtok (toCharArray 64 (trim line)) = (Some "STOP"%string, rest) ->
  strtok rest = (None, rest') ->
  toUpperCase (trim abort) = "ABORT"%string ->
  state_of (parseAndExec int_bits line w) =
    state_of (parseAndExec int_bits abort w) /\
  log (parseAndExec int_bits line w) =
    log w ++ [ EvDigitalWrite 4 HIGH; EvDigitalWrite 7 HIGH;
               EvDigitalWrite 10 HIGH; EvDigitalWrite 13 HIGH;
               EvDigitalWrite 48 HIGH; EvPrintln (SStr "STOP: tum motorlar") ].
Proof.
  intros Hcmd Hnone Hu.
  rewrite (parseAndExec_word int_bits line "STOP" rest w Hcmd eq_refl).
  rewrite exec_command_STOP, Hnone. cbv zeta.
  unfold parseAndExec.
  assert (Hlen : String.length (trim abort) = 5%nat).
  { rewrite <- toUpperCase_length, Hu. reflexivity. }
  rewrite Hlen, Hu. cbn [Nat.eqb]. rewrite exec_line_ABORT.
  destruct (enaOff_all_frame (set_abortRequested true w)) as (_ & Hl & _).
  revert Hl.
  generalize (enaOff_all (set_abortRequested true w)). intros w1 Hl.
  split; [reflexivity|].
  unfold_board. rewrite Hl. now rewrite <- app_assoc.
Qed.

Lemma stop_without_argument_is_abort_witness :
  state_of (parseAndExec 16 "STOP" booted) =
    state_of (parseAndExec 16 "abort" booted).
Proof.
  apply (stop_without_argument_is_abort 16 "STOP" "" "" "abort" booted);
    reflexivity.
Defined.

(** X11. STOP m with m in 1..5 drives the enable pin of axis m HIGH and no
    other pin; it requests an abort and clears [movingMotor] only when m is
    the motor that is moving; no setting changes. *)
Theorem stop_one_motor (int_bits : Z) (line rest pm rest' : string) (w : world) :
  strtok (toCharArray 64 (trim line)) = (Some "STOP"%string, rest) ->
  strtok rest = (Some pm, rest') ->
  in_1_5 (atoi int_bits pm) = true ->
  digitalRead (ena (MOT_at (atoi int_bits pm))) (parseAndExec int_bits line w)
    = HIGH /\
  (forall pin, pin <> ena (MOT_at (atoi int_bits pm)) ->
     digitalRead pin (parseAndExec int_bits line w) = digitalRead pin w) /\
  abortRequested (parseAndExec int_bits line w) =
    abortRequested w || (movingMotor w =? atoi int_bits pm) /\
  movingMotor (parseAndExec int_bits line w) =
    (if movingMotor w =? atoi int_bits pm then 0 else movingMotor w) /\
  settings (parseAndExec int_bits line w) = settings w.
Proof.
  intros Hcmd Hpm Hm.
  rewrite (parseAndExec_word int_bits line "STOP" rest w Hcmd eq_refl).
  rewrite exec_command_STOP, Hpm. cbv zeta. rewrite Hm.
  generalize (atoi int_bits pm). intros m.
  unfold digitalRead.
  destruct (movingMotor w =? m) eqn:Emov; unfold_board.
  - split; [now rewrite lookup_insert_eq|].
    split; [intros pin Hpin; now rewrite lookup_insert_ne by congruence|].
    split; [now rewrite orb_true_r|]. split; reflexivity.
  - split; [now rewrite lookup_insert_eq|].
    split; [intros pin Hpin; now rewrite lookup_insert_ne by congruence|].
    split; [now rewrite orb_false_r|]. split; reflexivity.
Qed.

Lemma stop_one_motor_witness :
  digitalRead (ena (MOT_at (atoi 16 "2"))) (parseAndExec 16 "STOP 2" booted)
    = HIGH /\
  abortRequested (parseAndExec 16 "STOP 2" booted) =
    abortRequested booted || (movingMotor booted =? atoi 16 "2").
Proof.
  destruct (stop_one_motor 16 "STOP 2" "2" "2" "" booted)
    as (H1 & _ & H3 & _); try reflexivity.
  split; [exact H1 | exact H3].
Defined.

(** ** Selecting a motor *)

Lemma exec_command_M (int_bits : Z) (rest : string) (w : world) :
  exec_command int_bits "M" rest w =
    match strtok rest with
    | (Some p, _) =>
        let m := atoi int_bits p in
        if in_1_5 m then
          let w := set_aktifMotor m w in
          let w := Serial_print (SStr "Motor secildi: ") w in
          let w := Serial_println (SInt (aktifMotor w)) w in
          enaOn (aktifMotor w) w
        else w
    | (None, _) => w
    end.
Proof. reflexivity. Qed.

(** X12. M m with m in 1..5 selects axis m and enables its driver (enable
    pin LOW); no other pin and no other setting changes, and a move under
    way is not disturbed.  With m outside 1..5 the command does nothing at
    all. *)
Theorem m_selects_and_enables (int_bits : Z) (line rest p rest' : string)
    (w : world) :
  strtok (toCharArray 64 (trim line)) = (Some "M"%string, rest) ->
  strtok rest = (Some p, rest') ->
  if in_1_5 (atoi int_bits p) then
    aktifMotor (parseAndExec int_bits line w) = atoi int_bits p /\
    digitalRead (ena (MOT_at (atoi int_bits p))) (parseAndExec int_bits line w)
      = LOW /\
    (forall pin, pin <> ena (MOT_at (atoi int_bits p)) ->
       digitalRead pin (parseAndExec int_bits line w) = digitalRead pin w) /\
    settings (parseAndExec int_bits line w) =
      settings (set_aktifMotor (atoi int_bits p) w) /\
    abortRequested (parseAndExec int_bits line w) = abortRequested w /\
    movingMotor (parseAndExec int_bits line w) = movingMotor w
  else parseAndExec int_bits line w = w.
Proof.
  intros Hcmd Hp.
  rewrite (parseAndExec_word int_bits line "M" rest w Hcmd eq_refl).
  rewrite exec_command_M, Hp. cbv zeta.
  generalize (atoi int_bits p). intros m.
  destruct (in_1_5 m); [|reflexivity].
  unfold digitalRead. unfold_board.
  split; [reflexivity|]. split; [now rewrite lookup_insert_eq|].
  split; [intros pin Hpin; now rewrite lookup_insert_ne by congruence|].
  repeat split; reflexivity.
Qed.

Lemma m_selects_and_enables_witness :
  aktifMotor (parseAndExec 16 "M 4" booted) = 4 /\
  parseAndExec 16 "M 6" booted = booted.
Proof.
  split.
  - apply (m_selects_and_enables 16 "M 4" "4" "4" "" booted); reflexivity.
  - apply (m_selects_and_enables 16 "M 6" "6" "6" "" booted); reflexivity.
Defined.

(** ** Slow ramps and the width of [int] *)

(** X13. The ramp interpolation casts both delays to [int].  At 2 degrees
    per second (1600 steps per revolution: a step every 112499
    microseconds) and RAMP 200 the ramp has one step.  With a 32-bit [int]
    the 200 steps of a 45 degree move run at the target delay and the last
    one at the start delay 168748; with a 16-bit [int] the difference of the
    casts wraps, and the first step takes 178035 microseconds, the last
    103212. *)
Theorem slow_ramp_depends_on_int_width :
  dpsToDelayUs (atof "2") 1 booted = 112499 /\
  degToSteps 1 (atof "45") booted = 200 /\
  rampStepsFor 200 112499 200 = 1 /\
  startDelayFor 112499 = 168748 /\
  profile_delays 32 200 112499 200 = 112499 :: repeat 112499 198 ++ [168748] /\
  profile_delays 16 200 112499 200 = 178035 :: repeat 112499 198 ++ [103212].
Proof. vm_compute. repeat split. Qed.
